(** * montarRanking: extraction, ranking and reporting of exam results

    A shallow embedding of [montarRanking.py] and the properties of its
    record extractor ([parse_candidates_data]), its ranker
    ([build_ranking]) and the file-name handling of its report builder
    ([display_ranking]).

    Text is a list of characters.  A character is a code point below 256
    (the Latin-1 block of Unicode), which holds every character of the
    patterns and markers of the extractor; the character classes of [re]
    and of the [str] methods are the Unicode ones restricted to that
    block.  The spinners and colours of the program are left out; of its
    progress bars, the text of the bar is modelled. *)

From Stdlib Require Import Ascii String DecimalString.
From Stdlib Require Import Bool Arith ZArith Lia QArith.
From Stdlib Require Import List Permutation Sorted.
From Stdlib Require Decimal DecimalFacts DecimalPos.
Import ListNotations.

Set Implicit Arguments.
Local Open Scope nat_scope.
Local Open Scope list_scope.

(** * Part I: the program *)

(** ** Characters and the [str] methods the program calls *)

Definition str := list ascii.

Definition lit (s : string) : str := list_ascii_of_string s.

Definition chr (n : nat) : ascii := ascii_of_nat n.

Definition ord (c : ascii) : nat := nat_of_ascii c.

Definition between (lo hi n : nat) : bool := (lo <=? n) && (n <=? hi).

(** [str.isspace] on one character, which is also [\s] of [re]. *)
Definition is_space (c : ascii) : bool :=
  let n := ord c in
  between 9 13 n || between 28 32 n || (n =? 133) || (n =? 160).

(** [\d] of [re]: the decimal digits. *)
Definition is_digit (c : ascii) : bool := between 48 57 (ord c).

(** [\w] of [re]: alphanumeric characters and the underscore. *)
Definition is_word (c : ascii) : bool :=
  let n := ord c in
  between 48 57 n || between 65 90 n || between 97 122 n || (n =? 95)
  || (n =? 170) || (n =? 178) || (n =? 179) || (n =? 181) || (n =? 185)
  || (n =? 186) || between 188 190 n || between 192 214 n
  || between 216 246 n || between 248 255 n.

(** [str.lower] on one character. *)
Definition lower_char (c : ascii) : ascii :=
  let n := ord c in
  if between 65 90 n || between 192 214 n || between 216 222 n
  then chr (n + 32) else c.

Definition lower (s : str) : str := map lower_char s.

(** The characters of a class dropped from the left, and from both
    ends. *)
Fixpoint lstrip_with (sp : ascii -> bool) (s : str) : str :=
  match s with
  | c :: s' => if sp c then lstrip_with sp s' else s
  | [] => []
  end.

Definition strip_with (sp : ascii -> bool) (s : str) : str :=
  rev (lstrip_with sp (rev (lstrip_with sp s))).

(** [s.strip()]. *)
Definition strip (s : str) : str := strip_with is_space s.

Fixpoint startswith (p s : str) : bool :=
  match p, s with
  | [], _ => true
  | a :: p', b :: s' => Ascii.eqb a b && startswith p' s'
  | _ :: _, [] => false
  end.

Definition endswith (p s : str) : bool := startswith (rev p) (rev s).

(** [sub in s]. *)
Fixpoint contains (sub s : str) : bool :=
  startswith sub s ||
  match s with
  | [] => false
  | _ :: s' => contains sub s'
  end.

(** [s.replace(old, new)] for a non-empty [old]: occurrences are replaced
    from left to right and do not overlap; [skip] counts the characters of
    an occurrence that are still to be passed over. *)
Fixpoint replace_from (old new : str) (skip : nat) (s : str) : str :=
  match s with
  | [] => []
  | c :: s' =>
      match skip with
      | S n => replace_from old new n s'
      | O =>
          if startswith old s
          then new ++ replace_from old new (length old - 1) s'
          else c :: replace_from old new 0 s'
      end
  end.

Definition replace (old new s : str) : str := replace_from old new 0 s.

(** [s.split(sep)] for a non-empty [sep]: the pieces between the
    occurrences of [sep], at least one piece. *)
Fixpoint split_from (sep : str) (skip : nat) (s : str) : list str :=
  match s with
  | [] => [[]]
  | c :: s' =>
      match skip with
      | S n => split_from sep n s'
      | O =>
          if startswith sep s
          then [] :: split_from sep (length sep - 1) s'
          else
            match split_from sep 0 s' with
            | p :: ps => (c :: p) :: ps
            | [] => [[c]]
            end
      end
  end.

Definition split (sep s : str) : list str := split_from sep 0 s.

(** ** The fragment of [re] the program's three patterns use

    Literals, one-character classes, greedy [*] and [+] over a class,
    concatenation and capturing groups.  Matching backtracks as [re] does:
    a greedy repetition first takes as many characters as it can and gives
    them back one at a time while the rest of the pattern fails.  Groups
    are recorded in the order they close, which is their number in a
    pattern without nested groups. *)

Inductive regex : Type :=
| Lit (c : ascii)
| Class (p : ascii -> bool)
| Star (p : ascii -> bool)
| Plus (p : ascii -> bool)
| Seq (r1 r2 : regex)
| Group (r : regex).

Fixpoint seq_of (rs : list regex) (last : regex) : regex :=
  match rs with
  | [] => last
  | r :: rs' => Seq r (seq_of rs' last)
  end.

Section Exec.
Variable A : Type.

Fixpoint star_k (p : ascii -> bool) (s : str) (k : str -> option A)
  : option A :=
  match s with
  | c :: s' =>
      if p c
      then match star_k p s' k with
           | Some x => Some x
           | None => k s
           end
      else k s
  | [] => k []
  end.

Fixpoint exec (r : regex) (s : str) (caps : list str)
         (k : str -> list str -> option A) : option A :=
  match r with
  | Lit c =>
      match s with
      | c' :: s' => if Ascii.eqb c c' then k s' caps else None
      | [] => None
      end
  | Class p =>
      match s with
      | c' :: s' => if p c' then k s' caps else None
      | [] => None
      end
  | Star p => star_k p s (fun s' => k s' caps)
  | Plus p =>
      match s with
      | c' :: s' => if p c' then star_k p s' (fun s' => k s' caps) else None
      | [] => None
      end
  | Seq r1 r2 => exec r1 s caps (fun s' caps' => exec r2 s' caps' k)
  | Group r0 =>
      exec r0 s caps
           (fun s' caps' => k s' (caps' ++ [firstn (length s - length s') s]))
  end.

End Exec.

(** A match object: where the match starts, the text it covers and its
    groups. *)
Record re_match : Type := MkMatch {
  m_start : nat;
  m_text : str;
  m_groups : list str
}.

(** The pattern tried at the first character of [s]. *)
Definition match_at (r : regex) (s : str) : option (str * list str) :=
  exec r s [] (fun s' caps => Some (firstn (length s - length s') s, caps)).

(** [re.search]: the first position, from the left, where the pattern
    matches. *)
Fixpoint search_from (r : regex) (i : nat) (s : str) : option re_match :=
  match match_at r s with
  | Some (w, g) => Some (MkMatch i w g)
  | None =>
      match s with
      | [] => None
      | _ :: s' => search_from r (S i) s'
      end
  end.

Definition search (r : regex) (s : str) : option re_match := search_from r 0 s.

(** No match of [r] starts at a character of [pre], when [pre] is
    followed by [rest]. *)
Fixpoint no_match_inside (r : regex) (pre rest : str) : bool :=
  match pre with
  | [] => true
  | _ :: pre' =>
      match match_at r (pre ++ rest) with
      | None => no_match_inside r pre' rest
      | Some _ => false
      end
  end.

(** [re.sub] for a pattern that matches no empty text: matches are
    replaced from left to right and do not overlap. *)
Fixpoint sub_from (r : regex) (repl : list str -> str) (skip : nat) (s : str)
  : str :=
  match s with
  | [] => []
  | c :: s' =>
      match skip with
      | S n => sub_from r repl n s'
      | O =>
          match match_at r s with
          | Some (w, g) => repl g ++ sub_from r repl (length w - 1) s'
          | None => c :: sub_from r repl 0 s'
          end
      end
  end.

Definition re_sub (r : regex) (repl : list str -> str) (s : str) : str :=
  sub_from r repl 0 s.

(** The character sets of the patterns. *)
Definition name_char (c : ascii) : bool :=
  is_word c || is_space c || Ascii.eqb c "."%char || Ascii.eqb c "-"%char
  || Ascii.eqb c "'"%char.

Definition not_newline (c : ascii) : bool := negb (Ascii.eqb c (chr 10)).

Definition lits (s : str) (last : regex) : regex := seq_of (map Lit s) last.

(** ['OPÇÃO'] and ['SUBÁREA:']. *)
Definition OPCAO : str := [chr 79; chr 80; chr 199; chr 195; chr 79].

Definition SUBAREA : str :=
  [chr 83; chr 85; chr 66; chr 193; chr 82; chr 69; chr 65; chr 58].

(** [r'OPÇÃO (\d+): (.+)'] *)
Definition title_pattern : regex :=
  lits OPCAO
    (seq_of [Lit " "; Group (Plus is_digit); Lit ":"; Lit " "]
            (Group (Plus not_newline))).

(** [r'(\d+)\.\s+(\d+)'] *)
Definition split_decimal_pattern : regex :=
  seq_of [Group (Plus is_digit); Lit "."; Plus is_space]
         (Group (Plus is_digit)).

(** [\d+\.\d+] *)
Definition decimal_re : regex :=
  seq_of [Plus is_digit; Lit "."] (Plus is_digit).

(** [,\s*] *)
Definition comma_re : list regex := [Lit ","; Star is_space].

(** [r'(\d+),\s*([\w\s.\-\']+),\s*(\d+\.\d+),\s*(\d+),\s*(\d+\.\d+),\s*(\d+),\s*(\d+\.\d+)'] *)
Definition pattern : regex :=
  seq_of
    ([Group (Plus is_digit)] ++ comma_re ++
     [Group (Plus name_char)] ++ comma_re ++
     [Group decimal_re] ++ comma_re ++
     [Group (Plus is_digit)] ++ comma_re ++
     [Group decimal_re] ++ comma_re ++
     [Group (Plus is_digit)] ++ comma_re)
    (Group decimal_re).

(** ** Conversions between text and numbers

    [int(s)]: surrounding white space is dropped, a sign may come first,
    then decimal digits, where single underscores may stand between digits.
    [None] is [ValueError], which is also raised for a text of more than
    [int_max_str_digits] digits, whatever the digits are (leading zeros
    count, underscores do not): the interpreter's limit on the length of a
    conversion, in its default setting, which the program does not
    change.  Python's integers themselves are unbounded. *)

(** The white space [int] and [float] pass over at both ends of their
    argument: the blank, the characters 9 to 13, and the white space
    outside ASCII (the characters 28 to 31 are not passed over). *)
Definition is_number_space (c : ascii) : bool :=
  let n := ord c in
  between 9 13 n || (n =? 32) || (n =? 133) || (n =? 160).

Definition strip_number (s : str) : str := strip_with is_number_space s.

(** The value of a digit, and [int] on the text between the sign and the
    end. *)
Definition digit_val (c : ascii) : Z := Z.of_nat (ord c - 48).

Fixpoint int_digits (acc : Z) (after_digit : bool) (s : str) : option Z :=
  match s with
  | [] => if after_digit then Some acc else None
  | c :: s' =>
      if is_digit c then int_digits (10 * acc + digit_val c) true s'
      else if Ascii.eqb c "_"%char && after_digit then
             match s' with
             | [] => None
             | d :: _ => if is_digit d then int_digits acc true s' else None
             end
           else None
  end.

(** [sys.get_int_max_str_digits()]. *)
Definition int_max_str_digits : nat := 4300.

Definition py_int (s : str) : option Z :=
  if int_max_str_digits <? length (filter is_digit s) then None
  else
    match strip_number s with
    | c :: u =>
        if Ascii.eqb c "-"%char then option_map Z.opp (int_digits 0 false u)
        else if Ascii.eqb c "+"%char then int_digits 0 false u
        else int_digits 0 false (c :: u)
    | [] => None
    end.

(** [str(n)] for an integer; the program applies it to integers that
    [int] has read, which are within the limit. *)
Definition int_str (n : Z) : str :=
  list_ascii_of_string (NilZero.string_of_int (Z.to_int n)).

(** Python's [float] is used through four operations: [float(s)] (where
    [None] is [ValueError]), [str(x)], [x < y] and [x == y]; [float_is_nan]
    tells NaN from the numbers. *)
Class PyFloat : Type := {
  float : Type;
  py_float : str -> option float;
  float_str : float -> str;
  float_lt : float -> float -> bool;
  float_eq : float -> float -> bool;
  float_is_nan : float -> bool
}.

(** ** The record extractor, the ranker and the report builder *)

Section Program.
Context {F : PyFloat}.

(** A candidate, as the dictionary built at lines 172-180. *)
Record candidate : Type := MkCandidate {
  registration : str;
  name : str;
  p1_score : float;
  p1_correct : Z;
  p2_score : float;
  p2_correct : Z;
  final_score : float
}.

(** A tuple of strings: [match.groups()], or the tuple the manual
    parsing builds. *)
Definition entry := list str.

(** What the extractor prints besides its progress. *)
Inductive diag : Type :=
| TryingAlternative (chunk : str)
| ManualParsed
| ManualFailed (parts : list str)
| CoercionFailed (e : entry).

(** The default of the option number and title. *)
Definition Unknown : str := lit "Unknown".

(** Lines 75-78. *)
Definition option_info (content : str) : str * str :=
  match search title_pattern content with
  | Some m => (nth 0 (m_groups m) [], nth 1 (m_groups m) [])
  | None => (Unknown, Unknown)
  end.

(** Line 86: [re.sub(r'(\d+)\.\s+(\d+)', r'\1.\2', content)]. *)
Definition rejoin_decimals (content : str) : str :=
  re_sub split_decimal_pattern
         (fun g => nth 0 g [] ++ "."%char :: nth 1 g []) content.

(** Line 89. *)
Definition cleaned_content (content : str) : str :=
  replace (lit "  ") (lit " ") (replace [chr 10] (lit " ") content).

(** Line 92, from the text read from the file. *)
Definition candidate_chunks (content : str) : list str :=
  split (lit "/") (cleaned_content (rejoin_decimals content)).

(** [parts[i] = v]; the program only writes below [len(parts)]. *)
Fixpoint list_set (i : nat) (v : str) (parts : list str) : list str :=
  match parts, i with
  | [], _ => []
  | _ :: ps, O => v :: ps
  | p :: ps, S j => p :: list_set j v ps
  end.

(** Lines 129-131. *)
Definition fix_numeric_parts (parts : list str) : list str :=
  fold_left
    (fun ps i =>
       if i <? length ps
       then list_set i (replace (lit " ") [] (nth i ps [])) ps
       else ps)
    (seq 2 5) parts.

(** Sequencing of steps that may raise. *)
Definition bind {A B : Type} (o : option A) (f : A -> option B) : option B :=
  match o with
  | Some a => f a
  | None => None
  end.

Notation "x <- e ;; k" := (bind e (fun x => k))
  (at level 61, e at next level, right associativity).

(** Lines 133-144, the [try] block: [None] is the exception caught at
    line 146. *)
Definition validate_parts (parts : list str) : option entry :=
  registration <- nth_error parts 0 ;;
  name <- nth_error parts 1 ;;
  p1_score <- bind (nth_error parts 2) py_float ;;
  p1_correct <- bind (nth_error parts 3) py_int ;;
  p2_score <- bind (nth_error parts 4) py_float ;;
  p2_correct <- bind (nth_error parts 5) py_int ;;
  final_score <- bind (nth_error parts 6) py_float ;;
  Some [registration; name; float_str p1_score; int_str p1_correct;
        float_str p2_score; int_str p2_correct; float_str final_score].

(** Lines 126-147: the manual parsing of a chunk the pattern rejected. *)
Definition manual_parse (chunk : str) : list entry * list diag :=
  let parts := map strip (split (lit ",") chunk) in
  if 7 <=? length parts then
    let parts := fix_numeric_parts parts in
    match validate_parts parts with
    | Some e => ([e], [ManualParsed])
    | None => ([], [ManualFailed parts])
    end
  else ([], []).

(** Lines 117-147: the entries and the diagnostics of one chunk. *)
Definition scan_chunk (chunk : str) : list entry * list diag :=
  match search pattern chunk with
  | Some m => ([m_groups m], [])
  | None =>
      let (es, ds) := manual_parse chunk in
      (es, TryingAlternative chunk :: ds)
  end.

(** Lines 99-114: what is scanned of a chunk, if anything, and the flag
    [candidates_data_started] after it. *)
Definition select_chunk (started : bool) (raw : str) : bool * option str :=
  let chunk := strip raw in
  match chunk with
  | [] => (started, None)
  | _ =>
      if negb started && contains OPCAO chunk then
        match split SUBAREA chunk with
        | _ :: part1 :: _ => (true, Some (strip part1))
        | _ => (started, None)
        end
      else (true, Some chunk)
  end.

(** One turn of the loop of lines 98-147. *)
Definition chunk_step (started : bool) (raw : str)
  : bool * (list entry * list diag) :=
  match select_chunk started raw with
  | (started', Some chunk) => (started', scan_chunk chunk)
  | (started', None) => (started', ([], []))
  end.

(** The loop of lines 98-147. *)
Fixpoint collect_entries (started : bool) (chunks : list str)
  : list entry * list diag :=
  match chunks with
  | [] => ([], [])
  | raw :: rest =>
      let (started', out) := chunk_step started raw in
      let (es, ds) := out in
      let (es', ds') := collect_entries started' rest in
      (es ++ es', ds ++ ds')
  end.

(** The flag after the loop has run over [chunks]. *)
Fixpoint started_after (started : bool) (chunks : list str) : bool :=
  match chunks with
  | [] => started
  | raw :: rest => started_after (fst (chunk_step started raw)) rest
  end.

(** Lines 164-180, the [try] block: [None] is the exception caught at
    line 183. *)
Definition coerce (e : entry) : option candidate :=
  registration <- option_map strip (nth_error e 0) ;;
  name <- option_map strip (nth_error e 1) ;;
  p1_score <- bind (nth_error e 2) py_float ;;
  p1_correct <- bind (nth_error e 3) py_int ;;
  p2_score <- bind (nth_error e 4) py_float ;;
  p2_correct <- bind (nth_error e 5) py_int ;;
  final_score <- bind (nth_error e 6) py_float ;;
  Some (MkCandidate registration name p1_score p1_correct
                    p2_score p2_correct final_score).

(** The loop of lines 156-185. *)
Fixpoint process_entries (entries : list entry)
  : list candidate * list diag :=
  match entries with
  | [] => ([], [])
  | e :: rest =>
      let (cs, ds) := process_entries rest in
      match coerce e with
      | Some c => (c :: cs, ds)
      | None => (cs, CoercionFailed e :: ds)
      end
  end.

(** The candidates a list of raw chunks gives, from the flag [started]. *)
Definition chunks_candidates (started : bool) (chunks : list str)
  : list candidate :=
  fst (process_entries (fst (collect_entries started chunks))).

(** The candidates of one scanned chunk. *)
Definition chunk_candidates (chunk : str) : list candidate :=
  fst (process_entries (fst (scan_chunk chunk))).

(** Lines 72-188, on the text read from the file. *)
Definition parse_content (content : str) : str * str * list candidate :=
  let (option_number, option_title) := option_info content in
  (option_number, option_title,
   chunks_candidates false (candidate_chunks content)).

(** [parse_candidates_data(filename)], given what reading the file
    gives: its text, or [None] when opening or decoding it raises
    (lines 190-192). *)
Definition parse_candidates_data (file : option str)
  : str * str * list candidate :=
  match file with
  | Some content => parse_content content
  | None => (Unknown, Unknown, [])
  end.

(** *** The ranker

    [sorted(candidates, key=itemgetter('final_score'), reverse=True)]:
    [sorted] copies its argument into a new list and sorts it stably with
    [<] on the keys; with [reverse=True] the copy is reversed before and
    after the sort, so that equal keys keep their order.  The sort is
    written as an insertion behind the elements that are not greater, which
    is what every stable sort returns on a total preorder. *)

Fixpoint insort (x : candidate) (l : list candidate) : list candidate :=
  match l with
  | [] => [x]
  | y :: l' =>
      if float_lt (final_score x) (final_score y)
      then x :: l
      else y :: insort x l'
  end.

Definition sort_by_final_score (l : list candidate) : list candidate :=
  fold_left (fun acc x => insort x acc) l [].

Definition ranked_candidates (candidates : list candidate)
  : list candidate :=
  rev (sort_by_final_score (rev candidates)).

(** List objects live in a store, addressed by their position; a new
    object goes to the end. *)
Definition store := list (list candidate).

Definition alloc (h : store) (l : list candidate) : nat * store :=
  (length h, h ++ [l]).

(** [build_ranking(candidates)], where [candidates] is the address of
    the argument: the address of the result and the store after the
    call. *)
Definition build_ranking (h : store) (candidates : nat)
  : option (nat * store) :=
  option_map (fun l => alloc h (ranked_candidates l))
             (nth_error h candidates).

(** *** The report builder, as far as its contract goes *)

Inductive file_format : Type := Xlsx | Csv | Txt.

Inductive report_event : Type :=
| NoCandidatesNotice
| ConsoleTable (rows : list (nat * candidate)) (more : nat)
| FileWrite (fmt : file_format) (file : str)
            (rows : list (nat * candidate)).

Definition extension (fmt : file_format) : str :=
  match fmt with
  | Xlsx => lit ".xlsx"
  | Csv => lit ".csv"
  | Txt => lit ".txt"
  end.

(** Lines 363-367, 387-390 and 409-412. *)
Definition reconcile (fmt : file_format) (output_file : str) : str :=
  let ext := extension fmt in
  let (a, b) :=
    match fmt with
    | Xlsx => (lit ".txt", lit ".csv")
    | Csv => (lit ".txt", lit ".xlsx")
    | Txt => (lit ".csv", lit ".xlsx")
    end in
  if negb (endswith ext (lower output_file)) then
    let renamed := replace b ext (replace a ext output_file) in
    if negb (endswith ext (lower renamed)) then renamed ++ ext
    else renamed
  else output_file.

(** Lines 363, 386 and 408. *)
Definition format_of (output_format : str) : file_format :=
  if list_eq_dec ascii_dec (lower output_format) (lit "xlsx") then Xlsx
  else if list_eq_dec ascii_dec (lower output_format) (lit "csv") then Csv
  else Txt.

Definition ranks (candidates : list candidate) : list (nat * candidate) :=
  combine (seq 1 (length candidates)) candidates.

(** [display_ranking]: what is shown and what is written.
    [ConsoleTable rows more] stands for the grid drawn from [rows], of
    which the first 22 lines are printed, and the count of further rows
    printed below it.  A [FileWrite] is the write the program attempts;
    its failure is caught at line 439. *)
Definition display_ranking (option_number option_title : str)
           (candidates : list candidate) (output_format : str)
           (output_file : option str) : list report_event :=
  match candidates with
  | [] => [NoCandidatesNotice]
  | _ =>
      let rows := ranks candidates in
      ConsoleTable rows (length rows - 20) ::
      match output_file with
      | Some (c :: f) =>
          let fmt := format_of output_format in
          [FileWrite fmt (reconcile fmt (c :: f)) rows]
      | _ => []
      end
  end.

End Program.

(** ** An implementation of [PyFloat] for the scenarios

    A score is the exact value of its decimal literal.  Literals made of a
    sign, digits and a point are read, and printed back in the same
    style. *)

Fixpoint take_digits (s : str) : str * str :=
  match s with
  | c :: s' =>
      if is_digit c
      then let (d, r) := take_digits s' in (c :: d, r)
      else ([], s)
  | [] => ([], [])
  end.

Definition digits_value (d : str) : Z :=
  fold_left (fun acc c => (10 * acc + digit_val c)%Z) d 0%Z.

(** [not s]. *)
Definition is_nil (s : str) : bool :=
  match s with [] => true | _ => false end.

Definition q_unsigned (u : str) : option Q :=
  let (d1, r) := take_digits u in
  match r with
  | [] => if is_nil d1 then None else Some (digits_value d1 # 1)
  | c :: f =>
      if Ascii.eqb c "."%char then
        let (d2, r2) := take_digits f in
        if is_nil r2 && negb (is_nil d1 && is_nil d2) then
          Some (Qred (digits_value (d1 ++ d2)
                      # Z.to_pos (10 ^ Z.of_nat (length d2))))
        else None
      else None
  end.

(** [float(s)] for a literal with an optional sign, digits and at most
    one point. *)
Definition q_float (s : str) : option Q :=
  match strip_number s with
  | c :: u =>
      if Ascii.eqb c "-"%char then option_map Qopp (q_unsigned u)
      else if Ascii.eqb c "+"%char then q_unsigned u
      else q_unsigned (c :: u)
  | [] => None
  end.

Fixpoint frac_digits (fuel : nat) (r d : Z) : str :=
  match fuel with
  | O => []
  | S fuel' =>
      if (r =? 0)%Z then []
      else chr (48 + Z.to_nat (10 * r / d))
           :: frac_digits fuel' ((10 * r) mod d)%Z d
  end.

(** [str(x)]: the integer part, a point and the digits of the fraction,
    at least one. *)
Definition q_str (x : Q) : str :=
  let n := Z.abs (Qnum x) in
  let d := Z.pos (Qden x) in
  (if (Qnum x <? 0)%Z then lit "-" else [])
  ++ int_str (n / d)
  ++ "."%char ::
     match frac_digits (Pos.size_nat (Qden x)) (n mod d)%Z d with
     | [] => lit "0"
     | ds => ds
     end.

(** [x < y]. *)
Definition q_lt (x y : Q) : bool := negb (Qle_bool y x).

#[export] Instance ExactDecimal : PyFloat := {|
  float := Q;
  py_float := q_float;
  float_str := q_str;
  float_lt := q_lt;
  float_eq := Qeq_bool;
  float_is_nan := fun _ => false
|}.

(** ** The notions of the statements *)

(** What the properties below use of [float], and IEEE binary64 has: a
    literal made of digits, a point and digits is accepted and denotes a
    number, and the numbers (the floats other than NaN) are totally
    preordered by [<], with [==] as the equivalence of the preorder. *)
Class PyFloatLaws (F : PyFloat) : Prop := {
  py_float_decimal :
    forall d1 d2 : str,
      d1 <> [] -> forallb is_digit d1 = true ->
      d2 <> [] -> forallb is_digit d2 = true ->
      exists x, py_float (d1 ++ "."%char :: d2) = Some x
                /\ float_is_nan x = false;
  float_lt_irrefl :
    forall x, float_is_nan x = false -> float_lt x x = false;
  float_lt_trans :
    forall x y z,
      float_is_nan x = false -> float_is_nan y = false ->
      float_is_nan z = false ->
      float_lt x y = true -> float_lt y z = true -> float_lt x z = true;
  float_lt_cotrans :
    forall x y z,
      float_is_nan x = false -> float_is_nan y = false ->
      float_is_nan z = false ->
      float_lt x z = true -> float_lt x y = true \/ float_lt y z = true;
  float_eq_spec :
    forall x y,
      float_is_nan x = false -> float_is_nan y = false ->
      float_eq x y = negb (float_lt x y) && negb (float_lt y x)
}.

(** What the comparison of the manual parsing with the pattern uses of
    [str] on floats, and IEEE binary64 has with the shortest
    representation that [str] prints: the float read from digits, a point
    and digits is read back from its [str]. *)
Class PyFloatRepr (F : PyFloat) : Prop := {
  float_str_reads_back :
    forall (d1 d2 : str) (x : float),
      d1 <> [] -> forallb is_digit d1 = true ->
      d2 <> [] -> forallb is_digit d2 = true ->
      py_float (d1 ++ "."%char :: d2) = Some x ->
      py_float (float_str x) = Some x
}.

(** [derives r w g]: the pattern [r] covers exactly the text [w], with
    the groups [g]. *)
Inductive derives : regex -> str -> list str -> Prop :=
| D_Lit c : derives (Lit c) [c] []
| D_Class p c : p c = true -> derives (Class p) [c] []
| D_Star p w : forallb p w = true -> derives (Star p) w []
| D_Plus p w : w <> [] -> forallb p w = true -> derives (Plus p) w []
| D_Seq r1 r2 w1 w2 g1 g2 :
    derives r1 w1 g1 -> derives r2 w2 g2 ->
    derives (Seq r1 r2) (w1 ++ w2) (g1 ++ g2)
| D_Group r w g : derives r w g -> derives (Group r) w (g ++ [w]).

(** The texts the groups of [pattern] hold. *)
Definition digits (s : str) : Prop := s <> [] /\ forallb is_digit s = true.

(** Digits, a point and digits. *)
Definition decimal (s : str) : Prop :=
  exists d1 d2, s = d1 ++ "."%char :: d2 /\ digits d1 /\ digits d2.

(** A name: characters of the set of the second group. *)
Definition name_text (s : str) : Prop :=
  s <> [] /\ forallb name_char s = true.

(** A run of white space. *)
Definition spaces (w : str) : Prop := w <> [] /\ forallb is_space w = true.

(** [rest] does not go on with a character of the class [p]. *)
Definition stops (p : ascii -> bool) (rest : str) : bool :=
  match rest with
  | [] => true
  | c :: _ => negb (p c)
  end.

(** A text holds a split decimal where a digit and a point are followed
    by white space and then a digit. *)
Definition has_split_decimal (t : str) : Prop :=
  exists pre d w d' post,
    t = pre ++ d :: "."%char :: w ++ d' :: post
    /\ is_digit d = true /\ spaces w /\ is_digit d' = true.

(** The manual parsing is compared with the pattern on the equivalent
    input of a chunk.  The fields of a chunk are its first seven parts
    between commas, without the white space around them, and the five
    numeric ones without their blanks; the equivalent input spells these
    fields in the layout of the input file, [id, name, decimal, int,
    decimal, int, decimal]: the fields joined by a comma and a blank.
    These definitions follow the statement compared with the program, not
    the program: the tuple that lines 126-144 build is not used. *)

Fixpoint join (sep : str) (l : list str) : str :=
  match l with
  | [] => []
  | x :: l' =>
      match l' with
      | [] => x
      | _ :: _ => x ++ sep ++ join sep l'
      end
  end.

Definition remove_blanks (s : str) : str :=
  filter (fun c => negb (Ascii.eqb c " "%char)) s.

Definition chunk_fields (chunk : str) : list str :=
  match map strip (split (lit ",") chunk) with
  | p0 :: p1 :: p2 :: p3 :: p4 :: p5 :: p6 :: _ =>
      [p0; p1; remove_blanks p2; remove_blanks p3; remove_blanks p4;
       remove_blanks p5; remove_blanks p6]
  | _ => []
  end.

Definition equivalent_input (chunk : str) : str :=
  join (lit ", ") (chunk_fields chunk).

(** The texts the groups of [pattern] can hold, as tests. *)
Definition is_digits (s : str) : bool :=
  negb (is_nil s) && forallb is_digit s.

Definition is_decimal (s : str) : bool :=
  let (d1, r) := take_digits s in
  match r with
  | c :: f =>
      Ascii.eqb c "."%char && negb (is_nil d1) && is_digits f
  | [] => false
  end.

Definition is_name (s : str) : bool :=
  negb (is_nil s) && forallb name_char s.

Definition pattern_shaped (e : list str) : bool :=
  match e with
  | [g1; g2; g3; g4; g5; g6; g7] =>
      is_digits g1 && is_name g2 && is_decimal g3 && is_digits g4
      && is_decimal g5 && is_digits g6 && is_decimal g7
  | _ => false
  end.


Section Scores.
Context {F : PyFloat}.

(** The five numeric fields are coercible: [float] and [int] read
    them. *)
Definition coercible (fields : list str) : Prop :=
  py_float (nth 2 fields []) <> None
  /\ py_int (nth 3 fields []) <> None
  /\ py_float (nth 4 fields []) <> None
  /\ py_int (nth 5 fields []) <> None
  /\ py_float (nth 6 fields []) <> None.

(** The key of a record is a number. *)
Definition numeric (c : candidate) : Prop :=
  float_is_nan (final_score c) = false.

(** [a]'s final score is greater than [b]'s, or equal to it. *)
Definition score_ge (a b : candidate) : Prop :=
  float_lt (final_score b) (final_score a) = true
  \/ float_eq (final_score a) (final_score b) = true.

(** The records whose final score is [== v]. *)
Definition score_is (v : float) (c : candidate) : bool :=
  float_eq (final_score c) v.

(** Ascending, as the sort leaves the reversed copy: no later record is
    below an earlier one. *)
Definition not_above (a b : candidate) : Prop :=
  float_lt (final_score b) (final_score a) = false.

End Scores.

(** ** The data of the scenarios *)

(** The three chunks of the scenario of the specification. *)
Definition john_chunk : str :=
  lit "001, John A. Doe, 10.0, 20, 9.5, 19, 9.75".

Definition john_groups : list str :=
  [lit "001"; lit "John A. Doe"; lit "10.0"; lit "20"; lit "9.5";
   lit "19"; lit "9.75"].

Definition short_chunk : str := lit "003, No, Good, Data".

(** A chunk with blanks inside and behind its first score, and the tuple
    the manual parsing builds from it. *)
Definition spaced_chunk : str := lit "001, John, 1 0.0 , 20, 9.5, 19, 9.75".

Definition spaced_entry : list str :=
  [lit "001"; lit "John"; lit "10.0"; lit "20"; lit "9.5"; lit "19";
   lit "9.75"].

(** A chunk whose name holds parentheses, with the tuple and the record
    the manual parsing builds from it. *)
Definition junior_chunk : str :=
  lit "001, John (Jr), 10.0, 20, 9.5, 19, 9.75".

Definition junior_entry : list str :=
  [lit "001"; lit "John (Jr)"; lit "10.0"; lit "20"; lit "9.5"; lit "19";
   lit "9.75"].

Definition junior_record : candidate (F := ExactDecimal) :=
  MkCandidate (F := ExactDecimal)
    (lit "001") (lit "John (Jr)") (10 # 1) 20 (19 # 2) 19 (39 # 4).

(** Three records, two of them with the same final score. *)
Definition mary : candidate (F := ExactDecimal) :=
  MkCandidate (F := ExactDecimal)
    (lit "002") (lit "Mary Lee") (8 # 1) 16 (17 # 2) 17 (33 # 4).

Definition john : candidate (F := ExactDecimal) :=
  MkCandidate (F := ExactDecimal)
    (lit "001") (lit "John A. Doe") (10 # 1) 20 (19 # 2) 19 (39 # 4).

Definition anne : candidate (F := ExactDecimal) :=
  MkCandidate (F := ExactDecimal)
    (lit "004") (lit "Anne Roe") (9 # 1) 15 (15 # 2) 18 (33 # 4).

(** A text the pattern covers, and its groups. *)
Definition inner_match : str := lit "7,Ann,1.0,2,3.0,4,5.0".

Definition inner_groups : list str :=
  [lit "7"; lit "Ann"; lit "1.0"; lit "2"; lit "3.0"; lit "4"; lit "5.0"].

(** ** The orchestrator and the progress bar *)

Section Orchestrator.
Context {F : PyFloat}.

(** What [main] shows: the events of the report builder, and its closing
    banner, which names the output file and the number of candidates. *)
Inductive main_event : Type :=
| Shown (e : report_event)
| SuccessBanner (output_file : str) (found : nat)
| FailureBanner.

(** [main()], given what reading ['opcao_40000188.txt'] gives (lines
    442-504). *)
Definition main (file : option str) : list main_event :=
  let output_file := lit "ranking_40000188.xlsx" in
  let output_format := lit "xlsx" in
  match parse_candidates_data file with
  | (option_number, option_title, candidates) =>
      match candidates with
      | [] => [FailureBanner]
      | _ =>
          map Shown
              (display_ranking option_number option_title
                               (ranked_candidates candidates)
                               output_format (Some output_file))
          ++ [SuccessBanner output_file (length candidates)]
      end
  end.

End Orchestrator.



Section Bar.
Variable C : Type.




End Bar.

(** A text in which some point is directly followed by white space. *)
Definition starts_with_space (s : str) : bool :=
  match s with
  | c :: _ => is_space c
  | [] => false
  end.

Fixpoint point_then_space (s : str) : bool :=
  match s with
  | c :: s' =>
      (Ascii.eqb c "."%char && starts_with_space s') || point_then_space s'
  | [] => false
  end.

(** No occurrence of [sep] starts at a character of [pre], when [pre] is
    followed by [rest]. *)
Fixpoint no_occurrence_inside (sep pre rest : str) : bool :=
  match pre with
  | [] => true
  | _ :: pre' =>
      negb (startswith sep (pre ++ rest)) && no_occurrence_inside sep pre' rest
  end.

(** The number of files a run of the report builder writes. *)
Section Writes.
Context {F : PyFloat}.

Definition is_write (e : report_event) : bool :=
  match e with
  | FileWrite _ _ _ => true
  | _ => false
  end.

Definition writes (es : list report_event) : nat :=
  length (filter is_write es).

End Writes.

(** The file of the scenario of the specification, a chunk whose first
    score cannot be read, the parts of a chunk with an eighth part, and a
    header chunk with the first candidate behind its section marker. *)
Definition scenario_file : str :=
  OPCAO ++ lit " 7: Analyst" ++ chr 10 :: SUBAREA
  ++ lit " 001, John A. Doe, 10.0, 20, 9.5, 19, 9.75 /"
  ++ lit " 002, Mary Lee, 8.0, 16, 8.5, 17, 8.25 /"
  ++ lit " 003, No, Good, Data".

Definition garbled_chunk : str := lit "001, John, x, 20, 9.5, 19, 9.75".

Definition long_parts : list str :=
  [lit "001"; lit "John Doe"; lit "1 0.0"; lit "2 0"; lit "9.5"; lit "19";
   lit "9. 75"; lit "x y"].

Definition header_text : str := OPCAO ++ lit " 7: Analyst ".

Definition header_chunk : str :=
  header_text ++ SUBAREA ++ " "%char :: john_chunk.

(** The text of a decimal numeral of the library, which is what
    [int_str] prints, and the step by which a run of digits is read. *)
Definition uint_text (d : Decimal.uint) : str :=
  list_ascii_of_string (NilEmpty.string_of_uint d).

Definition digit_step (acc : Z) (c : ascii) : Z := (10 * acc + digit_val c)%Z.

(** A chunk that the pattern covers, with a count of 4301 digits, and its
    groups; the same chunk inside other text. *)
Definition long_count : str := repeat "1"%char 4301.

Definition long_count_chunk : str :=
  lit "001, John, 10.0, " ++ long_count ++ lit ", 9.5, 19, 9.75".

Definition long_count_groups : list str :=
  [lit "001"; lit "John"; lit "10.0"; long_count; lit "9.5"; lit "19";
   lit "9.75"].

Definition long_count_inside : str :=
  lit "x " ++ long_count_chunk ++ lit " tail".

(** * Part II: properties *)

(** ** Text *)

Lemma startswith_app (p s : str) : startswith p (p ++ s) = true.
Proof.
  induction p as [|a p IH]; simpl; [reflexivity|].
  now rewrite Ascii.eqb_refl, IH.
Qed.

Lemma startswith_prefix (p s : str) :
  startswith p s = true -> exists t, s = p ++ t.
Proof.
  revert s; induction p as [|a p IH]; intros s H.
  - now exists s.
  - destruct s as [|b s]; simpl in H; [discriminate|].
    apply andb_true_iff in H as [Hab Hp].
    apply Ascii.eqb_eq in Hab; subst b.
    destruct (IH _ Hp) as [t ->]. now exists t.
Qed.

Lemma endswith_suffix (p s : str) :
  endswith p s = true <-> exists t, s = t ++ p.
Proof.
  unfold endswith; split.
  - intros H. apply startswith_prefix in H as [t Ht].
    exists (rev t). rewrite <- (rev_involutive s), Ht, rev_app_distr.
    now rewrite rev_involutive.
  - intros [t ->]. rewrite rev_app_distr. apply startswith_app.
Qed.

Lemma lstrip_with_forallb (P sp : ascii -> bool) (s : str) :
  forallb P s = true -> forallb P (lstrip_with sp s) = true.
Proof.
  induction s as [|c s IH]; simpl; [reflexivity|].
  intros H. destruct (sp c); [|exact H].
  apply andb_true_iff in H as [_ H]. now apply IH.
Qed.

Lemma forallb_rev (P : ascii -> bool) (s : str) :
  forallb P (rev s) = forallb P s.
Proof.
  induction s as [|c s IH]; simpl; [reflexivity|].
  rewrite forallb_app, IH; simpl. rewrite andb_true_r. apply andb_comm.
Qed.

Lemma strip_forallb (P : ascii -> bool) (s : str) :
  forallb P s = true -> forallb P (strip s) = true.
Proof.
  intros H. unfold strip, strip_with.
  rewrite forallb_rev. apply lstrip_with_forallb.
  rewrite forallb_rev. now apply lstrip_with_forallb.
Qed.

Lemma forallb_impl (P Q : ascii -> bool) (s : str) :
  (forall c, P c = true -> Q c = true) ->
  forallb P s = true -> forallb Q s = true.
Proof.
  intros HPQ. induction s as [|c s IH]; simpl; [reflexivity|].
  intros H. apply andb_true_iff in H as [Hc Hs].
  now rewrite (HPQ c Hc), IH.
Qed.

Lemma digit_not_space (c : ascii) : is_digit c = true -> is_space c = false.
Proof.
  destruct c as [[|] [|] [|] [|] [|] [|] [|] [|]];
    vm_compute; intros H; try reflexivity; discriminate H.
Qed.

Lemma digit_not_sign (c : ascii) :
  is_digit c = true ->
  Ascii.eqb c "-"%char = false /\ Ascii.eqb c "+"%char = false.
Proof.
  destruct c as [[|] [|] [|] [|] [|] [|] [|] [|]];
    vm_compute; intros H; try (split; reflexivity); discriminate H.
Qed.

Lemma digit_not_number_space (c : ascii) :
  is_digit c = true -> is_number_space c = false.
Proof.
  destruct c as [[|] [|] [|] [|] [|] [|] [|] [|]];
    vm_compute; intros H; try reflexivity; discriminate H.
Qed.

Lemma strip_with_id (sp : ascii -> bool) (s : str) :
  forallb (fun c => negb (sp c)) s = true -> strip_with sp s = s.
Proof.
  intros H.
  assert (L : forall t : str,
             forallb (fun c => negb (sp c)) t = true -> lstrip_with sp t = t).
  { intros [|c t]; simpl; [reflexivity|]. intros Ht.
    apply andb_true_iff in Ht as [Hc _].
    apply negb_true_iff in Hc. now rewrite Hc. }
  unfold strip_with. rewrite (L s H), L.
  - apply rev_involutive.
  - now rewrite forallb_rev.
Qed.

Lemma strip_number_digits (s : str) (rest : str) :
  forallb is_digit s = true -> forallb is_digit rest = true ->
  strip_number (s ++ "."%char :: rest) = s ++ "."%char :: rest.
Proof.
  intros H1 H2. apply strip_with_id.
  rewrite forallb_app; simpl. apply andb_true_iff; split.
  - revert H1; apply forallb_impl.
    intros c Hc; now rewrite (digit_not_number_space c Hc).
  - revert H2; apply forallb_impl.
    intros c Hc; now rewrite (digit_not_number_space c Hc).
Qed.

Lemma strip_digits (s : str) :
  forallb is_digit s = true -> strip_number s = s.
Proof.
  intros H. apply strip_with_id. revert H. apply forallb_impl.
  intros c Hc. now rewrite (digit_not_number_space c Hc).
Qed.

Lemma lstrip_with_split (sp : ascii -> bool) (s : str) :
  exists l, s = l ++ lstrip_with sp s /\ stops sp (lstrip_with sp s) = true.
Proof.
  induction s as [|c s (l & E & H)]; simpl.
  - now exists [].
  - destruct (sp c) eqn:Hc.
    + exists (c :: l). simpl. now rewrite <- E.
    + exists []. simpl. now rewrite Hc.
Qed.

(** What [strip] returns does not start with white space. *)
Lemma strip_head (s : str) : stops is_space (strip s) = true.
Proof.
  unfold strip, strip_with.
  destruct (lstrip_with_split is_space s) as (_ & _ & H).
  set (u := lstrip_with is_space s) in *.
  destruct (lstrip_with_split is_space (rev u)) as (l & E & _).
  apply (f_equal (@rev ascii)) in E.
  rewrite rev_involutive, rev_app_distr in E.
  destruct (rev (lstrip_with is_space (rev u))) as [|c t]; [reflexivity|].
  rewrite E in H. exact H.
Qed.

Lemma suffix_cons (c : ascii) (s v : str) :
  (exists u, s = u ++ v) -> exists u, c :: s = u ++ v.
Proof. intros [u ->]. now exists (c :: u). Qed.

(** ** Numbers *)

Lemma int_digits_total (s : str) :
  forallb is_digit s = true ->
  forall acc b,
    (0 <= acc)%Z -> s <> [] \/ b = true ->
    exists n, int_digits acc b s = Some n /\ (0 <= n)%Z.
Proof.
  induction s as [|c s IH]; cbn [int_digits forallb]; intros H acc b Hacc Hb.
  - destruct Hb as [Hb | ->]; [contradiction|]. now exists acc.
  - apply andb_true_iff in H as [Hc Hs]. rewrite Hc.
    apply IH; [exact Hs | | now right].
    unfold digit_val. lia.
Qed.

Lemma filter_digits (s : str) :
  forallb is_digit s = true -> filter is_digit s = s.
Proof.
  induction s as [|c s IH]; cbn [forallb filter]; [reflexivity|].
  intros H. apply andb_true_iff in H as [Hc Hs]. now rewrite Hc, IH.
Qed.

(** Beyond the limit on the number of digits, [int] raises. *)
Lemma py_int_beyond_limit (s : str) :
  int_max_str_digits < length (filter is_digit s) -> py_int s = None.
Proof.
  intros H. unfold py_int. apply Nat.ltb_lt in H. now rewrite H.
Qed.

Lemma py_int_digits (s : str) :
  digits s -> length s <= int_max_str_digits ->
  exists n, py_int s = Some n /\ (0 <= n)%Z.
Proof.
  intros [Hne Hd] Hlen. unfold py_int. rewrite (filter_digits s Hd).
  replace (int_max_str_digits <? length s) with false
    by (symmetry; apply Nat.ltb_ge; exact Hlen).
  rewrite (strip_digits s Hd).
  destruct s as [|c u]; [contradiction|].
  pose proof Hd as Hd'. simpl in Hd'. apply andb_true_iff in Hd' as [Hc _].
  destruct (digit_not_sign c Hc) as [-> ->].
  apply int_digits_total; [exact Hd | lia | left; discriminate].
Qed.

Lemma py_int_within_limit (s : str) (n : Z) :
  forallb is_digit s = true -> py_int s = Some n ->
  length s <= int_max_str_digits.
Proof.
  intros Hd H. apply Nat.nlt_ge. intros L.
  rewrite <- (filter_digits s Hd) in L.
  rewrite (py_int_beyond_limit s L) in H. discriminate H.
Qed.

Lemma py_int_nonneg (s : str) (n : Z) :
  digits s -> py_int s = Some n -> (0 <= n)%Z.
Proof.
  intros D H.
  destruct (py_int_digits D (py_int_within_limit s (proj2 D) H))
    as (n' & E & P).
  congruence.
Qed.

(** *** [str] of an integer, read back *)

Lemma digits_value_fold (s : str) : digits_value s = fold_left digit_step s 0%Z.
Proof. reflexivity. Qed.

Lemma uint_text_acc (d : Decimal.uint) :
  forall acc : positive,
    fold_left digit_step (uint_text d) (Z.pos acc)
    = Z.pos (Pos.of_uint_acc d acc).
Proof.
  induction d; intros acc;
    cbn [uint_text NilEmpty.string_of_uint list_ascii_of_string fold_left
         Pos.of_uint_acc];
    [reflexivity|..];
    fold (uint_text d); unfold digit_step at 2;
    match goal with
    | |- context [digit_val ?c] =>
        let v := eval vm_compute in (digit_val c) in
        change (digit_val c) with v
    end;
    rewrite <- IHd; f_equal; lia.
Qed.

Lemma uint_text_value (d : Decimal.uint) :
  digits_value (uint_text d) = Z.of_N (Pos.of_uint d).
Proof.
  rewrite digits_value_fold.
  induction d; cbn [uint_text NilEmpty.string_of_uint
                    list_ascii_of_string fold_left Pos.of_uint];
    [reflexivity|..]; fold (uint_text d);
    unfold digit_step at 2;
    match goal with
    | |- context [digit_val ?c] =>
        let v := eval vm_compute in (digit_val c) in
        change (digit_val c) with v
    end; cbn [Z.mul Z.add Z.of_N]; [exact IHd|..];
    apply uint_text_acc.
Qed.

Lemma uint_text_digits (d : Decimal.uint) :
  forallb is_digit (uint_text d) = true.
Proof.
  induction d; cbn [uint_text NilEmpty.string_of_uint
                    list_ascii_of_string forallb];
    [reflexivity|..]; fold (uint_text d); rewrite IHd; reflexivity.
Qed.

Lemma uint_text_length (d : Decimal.uint) :
  length (uint_text d) = Decimal.nb_digits d.
Proof.
  induction d; cbn [uint_text NilEmpty.string_of_uint
                    list_ascii_of_string length Decimal.nb_digits];
    [reflexivity|..]; fold (uint_text d); now rewrite IHd.
Qed.

Lemma int_str_pos (p : positive) :
  int_str (Z.pos p) = uint_text (Pos.to_uint p).
Proof.
  unfold int_str, uint_text. cbn [Z.to_int NilZero.string_of_int].
  unfold NilZero.string_of_uint.
  pose proof (DecimalPos.Unsigned.to_uint_nonnil p) as N.
  now destruct (Pos.to_uint p).
Qed.

Lemma digit_text (c : ascii) (d : Decimal.uint) :
  is_digit c = true -> exists d', uint_text d' = c :: uint_text d.
Proof.
  destruct c as [[|] [|] [|] [|] [|] [|] [|] [|]];
    intros H; try (vm_compute in H; discriminate H);
    first [ exists (Decimal.D0 d); reflexivity
          | exists (Decimal.D1 d); reflexivity
          | exists (Decimal.D2 d); reflexivity
          | exists (Decimal.D3 d); reflexivity
          | exists (Decimal.D4 d); reflexivity
          | exists (Decimal.D5 d); reflexivity
          | exists (Decimal.D6 d); reflexivity
          | exists (Decimal.D7 d); reflexivity
          | exists (Decimal.D8 d); reflexivity
          | exists (Decimal.D9 d); reflexivity ].
Qed.

Lemma digits_text (s : str) :
  forallb is_digit s = true -> exists d, uint_text d = s.
Proof.
  induction s as [|c s IH]; cbn [forallb]; intros H.
  - now exists Decimal.Nil.
  - apply andb_true_iff in H as [Hc Hs].
    destruct (IH Hs) as [d <-]. now apply digit_text.
Qed.

Lemma int_digits_value (s : str) :
  forallb is_digit s = true ->
  forall acc b,
    s <> [] \/ b = true ->
    int_digits acc b s = Some (fold_left digit_step s acc).
Proof.
  induction s as [|c s IH]; cbn [int_digits forallb fold_left];
    intros H acc b Hb.
  - destruct Hb as [Hb | ->]; [contradiction | reflexivity].
  - apply andb_true_iff in H as [Hc Hs]. rewrite Hc.
    apply IH; [exact Hs | now right].
Qed.

Lemma py_int_value (s : str) :
  digits s -> length s <= int_max_str_digits ->
  py_int s = Some (digits_value s).
Proof.
  intros [Hne Hd] Hlen. unfold py_int. rewrite (filter_digits s Hd).
  replace (int_max_str_digits <? length s) with false
    by (symmetry; apply Nat.ltb_ge; exact Hlen).
  rewrite (strip_digits s Hd).
  destruct s as [|c u]; [contradiction|].
  pose proof Hd as Hd'. cbn [forallb] in Hd'.
  apply andb_true_iff in Hd' as [Hc _].
  destruct (digit_not_sign c Hc) as [-> ->].
  apply int_digits_value; [exact Hd | left; discriminate].
Qed.

Lemma digits_value_nonneg (s : str) : (0 <= digits_value s)%Z.
Proof.
  rewrite digits_value_fold.
  assert (G : forall acc, (0 <= acc)%Z -> (0 <= fold_left digit_step s acc)%Z).
  { induction s as [|c s IH]; cbn [fold_left]; intros acc Ha; [exact Ha|].
    apply IH. unfold digit_step, digit_val. lia. }
  apply G. lia.
Qed.

(** [str(n)] of a natural number: digits, read back as [n], and no longer
    than any run of digits that reads as [n]. *)
Lemma int_str_spec (n : Z) :
  (0 <= n)%Z ->
  digits (int_str n)
  /\ digits_value (int_str n) = n
  /\ forall s, digits s -> digits_value s = n ->
       length (int_str n) <= length s.
Proof.
  intros Hn. destruct n as [|p|p]; [| |lia].
  - split; [split; [discriminate | reflexivity]|].
    split; [reflexivity|].
    intros s [Hne _] _. destruct s; [contradiction | cbn; lia].
  - rewrite int_str_pos. split; [split|split].
    + intros E. apply (f_equal (@length ascii)) in E.
      rewrite uint_text_length in E. cbn in E.
      apply DecimalFacts.nb_digits_0 in E.
      exact (DecimalPos.Unsigned.to_uint_nonnil p E).
    + apply uint_text_digits.
    + rewrite uint_text_value, DecimalPos.Unsigned.of_to. reflexivity.
    + intros s [Hne Hd] Hv.
      destruct (digits_text s Hd) as [d <-].
      rewrite uint_text_value in Hv.
      assert (E : Pos.of_uint d = N.pos p) by lia.
      pose proof (DecimalPos.Unsigned.to_of d) as T. rewrite E in T.
      cbn [N.to_uint] in T.
      rewrite !uint_text_length, T.
      apply DecimalFacts.nb_digits_unorm. intros ->. now apply Hne.
Qed.

Lemma py_int_int_str (s : str) (n : Z) :
  digits s -> py_int s = Some n -> py_int (int_str n) = Some n.
Proof.
  intros D H.
  pose proof (py_int_within_limit s (proj2 D) H) as L.
  rewrite (@py_int_value s D L) in H. injection H as <-.
  destruct (@int_str_spec _ (digits_value_nonneg s)) as (D' & V & Len).
  rewrite py_int_value; [now rewrite V | exact D' |].
  specialize (Len s D eq_refl). lia.
Qed.

(** ** The matcher is sound and complete for [derives] *)

Lemma firstn_consumed (w s : str) :
  firstn (length (w ++ s) - length s) (w ++ s) = w.
Proof.
  rewrite length_app, Nat.add_sub.
  rewrite firstn_app, Nat.sub_diag, firstn_all; simpl.
  apply app_nil_r.
Qed.

Section Matcher.
Variable A : Type.

Lemma star_k_sound (p : ascii -> bool) (s : str) (k : str -> option A) x :
  star_k p s k = Some x ->
  exists w s', s = w ++ s' /\ forallb p w = true /\ k s' = Some x.
Proof.
  induction s as [|c s IH]; simpl; intros H.
  - now exists [], [].
  - destruct (p c) eqn:Hc.
    + destruct (star_k p s k) as [y|] eqn:Hs.
      * injection H as ->. destruct (IH eq_refl) as (w & s' & -> & Hw & Hk).
        exists (c :: w), s'; simpl. now rewrite Hc, Hw.
      * now exists [], (c :: s).
    + now exists [], (c :: s).
Qed.

Lemma star_k_complete (p : ascii -> bool) (w s : str)
      (k : str -> option A) :
  forallb p w = true -> k s <> None -> star_k p (w ++ s) k <> None.
Proof.
  induction w as [|c w IH]; simpl; intros Hw Hk.
  - destruct s as [|c s]; simpl; [exact Hk|].
    destruct (p c); [|exact Hk].
    destruct (star_k p s k); [discriminate | exact Hk].
  - apply andb_true_iff in Hw as [Hc Hw]. rewrite Hc.
    specialize (IH Hw Hk).
    destruct (star_k p (w ++ s) k); [discriminate | contradiction].
Qed.

(** A greedy repetition that can take the whole of [w], and no more,
    and after which the rest succeeds, stops there. *)
Lemma star_k_greedy (p : ascii -> bool) (w s : str)
      (k : str -> option A) x :
  forallb p w = true ->
  match s with [] => true | c :: _ => negb (p c) end = true ->
  k s = Some x -> star_k p (w ++ s) k = Some x.
Proof.
  induction w as [|c w IH]; simpl; intros Hw Hs Hk.
  - destruct s as [|c s]; simpl; [exact Hk|].
    apply negb_true_iff in Hs. now rewrite Hs.
  - apply andb_true_iff in Hw as [Hc Hw]. now rewrite Hc, IH.
Qed.

Lemma exec_sound (r : regex) :
  forall s caps (k : str -> list str -> option A) x,
    exec r s caps k = Some x ->
    exists w s' g,
      s = w ++ s' /\ derives r w g /\ k s' (caps ++ g) = Some x.
Proof.
  induction r as [c|p|p|p|r1 IH1 r2 IH2|r IH]; simpl; intros s caps k x H.
  - destruct s as [|c' s]; [discriminate|].
    destruct (Ascii.eqb c c') eqn:E; [|discriminate].
    apply Ascii.eqb_eq in E; subst c'.
    exists [c], s, []. rewrite app_nil_r. repeat split; [constructor|exact H].
  - destruct s as [|c' s]; [discriminate|].
    destruct (p c') eqn:E; [|discriminate].
    exists [c'], s, []. rewrite app_nil_r.
    repeat split; [now constructor|exact H].
  - apply star_k_sound in H as (w & s' & -> & Hw & Hk).
    exists w, s', []. rewrite app_nil_r.
    repeat split; [now constructor|exact Hk].
  - destruct s as [|c' s]; [discriminate|].
    destruct (p c') eqn:E; [|discriminate].
    apply star_k_sound in H as (w & s' & -> & Hw & Hk).
    exists (c' :: w), s', []. rewrite app_nil_r.
    repeat split; [|exact Hk].
    constructor; [discriminate|]. simpl. now rewrite E, Hw.
  - apply IH1 in H as (w1 & s1 & g1 & -> & D1 & H).
    apply IH2 in H as (w2 & s2 & g2 & -> & D2 & H).
    exists (w1 ++ w2), s2, (g1 ++ g2).
    rewrite <- app_assoc. repeat split; [now constructor|].
    now rewrite app_assoc.
  - apply IH in H as (w & s' & g & -> & D & H).
    exists w, s', (g ++ [w]).
    repeat split; [now constructor|].
    rewrite firstn_consumed in H. now rewrite app_assoc.
Qed.

Lemma exec_complete (r : regex) (w : str) (g : list str) :
  derives r w g ->
  forall s caps (k : str -> list str -> option A),
    k s (caps ++ g) <> None -> exec r (w ++ s) caps k <> None.
Proof.
  induction 1 as [c|p c Hc|p w Hw|p w Hne Hw
                  |r1 r2 w1 w2 g1 g2 _ IH1 _ IH2|r w g _ IH];
    intros s caps k Hk; simpl.
  - rewrite Ascii.eqb_refl. now rewrite app_nil_r in Hk.
  - rewrite Hc. now rewrite app_nil_r in Hk.
  - rewrite app_nil_r in Hk. now apply star_k_complete.
  - rewrite app_nil_r in Hk.
    destruct w as [|c w]; [contradiction|]. simpl in Hw |- *.
    apply andb_true_iff in Hw as [Hc Hw]. rewrite Hc.
    now apply star_k_complete.
  - rewrite <- app_assoc. apply IH1. apply IH2.
    now rewrite <- app_assoc.
  - apply IH. rewrite firstn_consumed. now rewrite <- app_assoc.
Qed.

End Matcher.

Lemma match_at_sound (r : regex) (s w : str) (g : list str) :
  match_at r s = Some (w, g) -> exists s', s = w ++ s' /\ derives r w g.
Proof.
  unfold match_at; intros H.
  apply exec_sound in H as (w' & s' & g' & -> & D & H).
  rewrite firstn_consumed in H; simpl in H.
  injection H as <- <-. now exists s'.
Qed.

Lemma match_at_complete (r : regex) (w s : str) (g : list str) :
  derives r w g -> match_at r (w ++ s) <> None.
Proof.
  intros D. unfold match_at.
  apply exec_complete with (g := g); [exact D | discriminate].
Qed.

Lemma search_from_sound (r : regex) (s : str) :
  forall i m,
    search_from r i s = Some m ->
    exists pre post,
      s = pre ++ m_text m ++ post /\ m_start m = i + length pre
      /\ derives r (m_text m) (m_groups m)
      /\ no_match_inside r pre (m_text m ++ post) = true.
Proof.
  induction s as [|c s IH]; intros i m H; simpl in H.
  - destruct (match_at r []) as [[w g]|] eqn:E; [|discriminate].
    injection H as <-. apply match_at_sound in E as (s' & Hs & D).
    exists [], s'; simpl. repeat split; auto.
  - destruct (match_at r (c :: s)) as [[w g]|] eqn:E.
    + injection H as <-. apply match_at_sound in E as (s' & Hs & D).
      exists [], s'; simpl. repeat split; auto.
    + apply IH in H as (pre & post & Hs & Hi & D & Hno).
      exists (c :: pre), post. subst s. simpl.
      rewrite E. repeat split; auto. lia.
Qed.

(** Where [no_match_inside] holds, no text that starts inside [pre] is
    covered by the pattern. *)
Lemma no_match_inside_spec (r : regex) (pre rest : str) :
  no_match_inside r pre rest = true ->
  forall a b w g s,
    pre = a ++ b -> b <> [] -> derives r w g -> b ++ rest <> w ++ s.
Proof.
  induction pre as [|c pre IH]; simpl; intros H a b w g s Hab Hb D E.
  - now destruct a, b.
  - destruct (match_at r (c :: pre ++ rest)) eqn:M; [discriminate|].
    destruct a as [|c' a]; simpl in Hab.
    + subst b. simpl in E. rewrite E in M.
      now apply (match_at_complete s D).
    + injection Hab as -> ->. now apply (IH H a b w g s).
Qed.

Lemma search_from_complete (r : regex) (pre w post : str) (g : list str) :
  derives r w g ->
  forall i, exists m,
    search_from r i (pre ++ w ++ post) = Some m
    /\ m_start m <= i + length pre.
Proof.
  intros D. induction pre as [|c pre IH]; intros i.
  - simpl app. pose proof (match_at_complete post D) as Hm.
    destruct (w ++ post) as [|c s] eqn:E; simpl;
      destruct (match_at r _) as [[w' g']|]; try contradiction;
      eexists; split; [reflexivity | simpl; lia | reflexivity | simpl; lia].
  - simpl. destruct (match_at r _) as [[w' g']|].
    + eexists; split; [reflexivity | simpl; lia].
    + destruct (IH (S i)) as (m & Hm & Hle). exists m; split; [exact Hm|lia].
Qed.

Lemma decimal_re_derives (w : str) (g : list str) :
  derives decimal_re w g -> decimal w /\ g = [].
Proof.
  unfold decimal_re; simpl; intros D.
  repeat match goal with
         | H : derives (Seq _ _) _ _ |- _ => inversion H; subst; clear H
         | H : derives (Plus _) _ _ |- _ => inversion H; subst; clear H
         | H : derives (Lit _) _ _ |- _ => inversion H; subst; clear H
         end.
  split; [|reflexivity].
  eexists _, _; split; [reflexivity|]. now split.
Qed.

Lemma pattern_groups (w : str) (g : list str) :
  derives pattern w g ->
  exists g1 g2 g3 g4 g5 g6 g7,
    g = [g1; g2; g3; g4; g5; g6; g7]
    /\ digits g1 /\ name_text g2 /\ decimal g3 /\ digits g4
    /\ decimal g5 /\ digits g6 /\ decimal g7.
Proof.
  unfold pattern, comma_re; simpl; intros D.
  repeat match goal with
         | H : derives (Seq _ _) _ _ |- _ => inversion H; subst; clear H
         | H : derives (Group decimal_re) _ _ |- _ =>
             inversion H; subst; clear H
         | H : derives decimal_re _ _ |- _ =>
             apply decimal_re_derives in H as [? ->]
         | H : derives (Group (Plus _)) _ _ |- _ =>
             inversion H; subst; clear H
         | H : derives (Plus _) _ _ |- _ => inversion H; subst; clear H
         | H : derives (Star _) _ _ |- _ => inversion H; subst; clear H
         | H : derives (Lit _) _ _ |- _ => inversion H; subst; clear H
         end.
  simpl. do 7 eexists. split; [reflexivity|].
  unfold digits, name_text. tauto.
Qed.

(** ** Greedy matching on texts whose parts are delimited

    When a repetition is followed by a character outside its class, and
    the rest of the pattern succeeds from there, the repetition takes the
    whole run at the first try. *)

Section Greedy.
Variable A : Type.
Implicit Types (k : str -> list str -> option A) (caps : list str).

Lemma exec_lit (c : ascii) (s : str) caps k :
  exec (Lit c) (c :: s) caps k = k s caps.
Proof. simpl. now rewrite Ascii.eqb_refl. Qed.

Lemma exec_group (r : regex) (s : str) caps k :
  exec (Group r) s caps k
  = exec r s caps
      (fun s' caps' => k s' (caps' ++ [firstn (length s - length s') s])).
Proof. reflexivity. Qed.

Lemma exec_seq (r1 r2 : regex) (s : str) caps k :
  exec (Seq r1 r2) s caps k
  = exec r1 s caps (fun s' caps' => exec r2 s' caps' k).
Proof. reflexivity. Qed.

Lemma exec_star_greedy (p : ascii -> bool) (w rest : str) caps k x :
  forallb p w = true -> stops p rest = true ->
  k rest caps = Some x -> exec (Star p) (w ++ rest) caps k = Some x.
Proof.
  intros Hw Hr Hk. simpl.
  now apply star_k_greedy with (k := fun s' => k s' caps).
Qed.

Lemma exec_plus_greedy (p : ascii -> bool) (w rest : str) caps k x :
  w <> [] -> forallb p w = true -> stops p rest = true ->
  k rest caps = Some x -> exec (Plus p) (w ++ rest) caps k = Some x.
Proof.
  intros Hne Hw Hr Hk. destruct w as [|c w]; [contradiction|].
  simpl in Hw |- *. apply andb_true_iff in Hw as [Hc Hw]. rewrite Hc.
  now apply star_k_greedy with (k := fun s' => k s' caps).
Qed.

Lemma exec_group_plus (p : ascii -> bool) (w rest : str) caps k x :
  w <> [] -> forallb p w = true -> stops p rest = true ->
  k rest (caps ++ [w]) = Some x ->
  exec (Group (Plus p)) (w ++ rest) caps k = Some x.
Proof.
  intros Hne Hw Hr Hk. rewrite exec_group.
  apply exec_plus_greedy; auto.
  now rewrite firstn_consumed.
Qed.

Lemma exec_group_decimal (d1 d2 rest : str) caps k x :
  digits d1 -> digits d2 -> stops is_digit rest = true ->
  k rest (caps ++ [d1 ++ "."%char :: d2]) = Some x ->
  exec (Group decimal_re) (d1 ++ "."%char :: d2 ++ rest) caps k = Some x.
Proof.
  intros [N1 H1] [N2 H2] Hr Hk. unfold decimal_re. cbn [seq_of].
  rewrite exec_group, exec_seq.
  apply exec_plus_greedy; [assumption | assumption | reflexivity |].
  cbv beta. rewrite exec_seq, exec_lit.
  apply exec_plus_greedy; [assumption | assumption | assumption |].
  replace (d1 ++ "."%char :: d2 ++ rest)
    with ((d1 ++ "."%char :: d2) ++ rest)
    by (now rewrite <- app_assoc).
  now rewrite firstn_consumed.
Qed.

End Greedy.

Section Greedy_pattern.
Variable A : Type.
Implicit Types (k : str -> list str -> option A) (caps : list str).

Lemma exec_comma_then (r : regex) (rest : str) caps k x :
  stops is_space rest = true ->
  exec r rest caps k = Some x ->
  exec (Seq (Lit ",") (Seq (Star is_space) r))
       (","%char :: " "%char :: rest) caps k = Some x.
Proof.
  intros Hr Hk. rewrite exec_seq, exec_lit, exec_seq.
  now apply (@exec_star_greedy _ is_space [" "%char] rest).
Qed.

Lemma exec_field_then (p : ascii -> bool) (r : regex) (w rest : str)
      caps k x :
  w <> [] -> forallb p w = true -> stops p rest = true ->
  exec r rest (caps ++ [w]) k = Some x ->
  exec (Seq (Group (Plus p)) r) (w ++ rest) caps k = Some x.
Proof.
  intros Hne Hw Hr Hk. rewrite exec_seq. now apply exec_group_plus.
Qed.

Lemma exec_decimal_then (r : regex) (w rest : str) caps k x :
  decimal w -> stops is_digit rest = true ->
  exec r rest (caps ++ [w]) k = Some x ->
  exec (Seq (Group decimal_re) r) (w ++ rest) caps k = Some x.
Proof.
  intros (d1 & d2 & -> & D1 & D2) Hr Hk. rewrite exec_seq.
  rewrite <- app_assoc. cbn [app]. now apply exec_group_decimal.
Qed.

End Greedy_pattern.

Lemma is_digits_spec (s : str) : is_digits s = true -> digits s.
Proof.
  unfold is_digits, digits. intros H.
  apply andb_true_iff in H as [H1 H2]. split; [|exact H2].
  intros ->. discriminate H1.
Qed.

Lemma is_name_spec (s : str) : is_name s = true -> name_text s.
Proof.
  unfold is_name, name_text. intros H.
  apply andb_true_iff in H as [H1 H2]. split; [|exact H2].
  intros ->. discriminate H1.
Qed.

Lemma take_digits_spec (s : str) :
  forall d r, take_digits s = (d, r) ->
              s = d ++ r /\ forallb is_digit d = true.
Proof.
  induction s as [|c s IH]; simpl; intros d r H.
  - injection H as <- <-. now split.
  - destruct (is_digit c) eqn:Hc.
    + destruct (take_digits s) as [d' r'].
      injection H as <- <-. destruct (IH d' r' eq_refl) as [-> Hd].
      split; [reflexivity|]. simpl. now rewrite Hc.
    + injection H as <- <-. now split.
Qed.

Lemma is_decimal_spec (s : str) : is_decimal s = true -> decimal s.
Proof.
  unfold is_decimal. destruct (take_digits s) as [d1 r] eqn:T.
  apply take_digits_spec in T as [-> H1].
  destruct r as [|c f]; [discriminate|]. intros H.
  apply andb_true_iff in H as [H H3]. apply andb_true_iff in H as [Hc H2].
  apply Ascii.eqb_eq in Hc; subst c. apply is_digits_spec in H3.
  exists d1, f. split; [reflexivity|]. split; [|exact H3].
  split; [now destruct d1 | exact H1].
Qed.

(** On fields of the pattern's shapes joined by a comma and a blank, the
    pattern matches the whole text and its groups are the fields. *)
Lemma pattern_on_joined_fields (g1 g2 g3 g4 g5 g6 g7 : str) :
  digits g1 -> name_text g2 -> stops is_space g2 = true ->
  decimal g3 -> digits g4 -> decimal g5 -> digits g6 -> decimal g7 ->
  let e := [g1; g2; g3; g4; g5; g6; g7] in
  search pattern (join (lit ", ") e)
  = Some (MkMatch 0 (join (lit ", ") e) e).
Proof.
  intros [N1 H1] [N2 H2] S2 D3 [N4 H4] D5 [N6 H6] D7 e.
  assert (M : match_at pattern (join (lit ", ") e)
              = Some (join (lit ", ") e, e)).
  { unfold match_at. set (s := join (lit ", ") e).
    set (k := fun (s' : str) (caps : list str) =>
                Some (firstn (length s - length s') s, caps)).
    assert (Hk : k [] e = Some (s, e)).
    { unfold k. simpl length. now rewrite Nat.sub_0_r, firstn_all. }
    clearbody k. subst s. unfold e, pattern, comma_re.
    cbn [join seq_of app]. change (lit ", ") with [","%char; " "%char].
    cbn [app].
    assert (Sd : forall d, decimal d -> stops is_space d = true).
    { intros d (d1 & d2 & -> & [Nd Hd] & _).
      destruct d1 as [|c d1]; [contradiction|]. simpl in Hd |- *.
      apply andb_true_iff in Hd as [Hc _].
      now rewrite (digit_not_space c Hc). }
    assert (Si : forall d, digits d -> stops is_space d = true).
    { intros d [Nd Hd].
      destruct d as [|c d]; [contradiction|]. simpl in Hd |- *.
      apply andb_true_iff in Hd as [Hc _].
      now rewrite (digit_not_space c Hc). }
    assert (Sa : forall (d t : str), d <> [] -> stops is_space d = true ->
                            stops is_space (d ++ t) = true).
    { intros d t Nd Hd. now destruct d. }
    assert (Nd : forall d, decimal d -> d <> []).
    { intros d (d1 & d2 & -> & [Nd _] & _). now destruct d1. }
    apply exec_field_then; [assumption | assumption | reflexivity |].
    apply exec_comma_then; [now apply Sa|].
    apply exec_field_then; [assumption | assumption | reflexivity |].
    apply exec_comma_then; [apply Sa; [now apply Nd | now apply Sd]|].
    apply exec_decimal_then; [assumption | reflexivity |].
    apply exec_comma_then; [apply Sa; [assumption | apply Si; now split]|].
    apply exec_field_then; [assumption | assumption | reflexivity |].
    apply exec_comma_then; [apply Sa; [now apply Nd | now apply Sd]|].
    apply exec_decimal_then; [assumption | reflexivity |].
    apply exec_comma_then; [apply Sa; [assumption | apply Si; now split]|].
    apply exec_field_then; [assumption | assumption | reflexivity |].
    apply exec_comma_then; [now apply Sd|].
    destruct D7 as (d1 & d2 & -> & D1 & D2).
    rewrite <- (app_nil_r (d1 ++ "."%char :: d2)) at 1.
    rewrite <- app_assoc. simpl app at 2.
    apply exec_group_decimal; [assumption | assumption | reflexivity |].
    exact Hk. }
  unfold search. remember (join (lit ", ") e) as s eqn:E.
  destruct s as [|c s]; cbn [search_from]; now rewrite M.
Qed.

(** ** The record extractor *)

Section Extraction.
Context {F : PyFloat} {Laws : PyFloatLaws F}.

Lemma py_float_of_decimal (s : str) :
  decimal s -> exists x, py_float s = Some x /\ float_is_nan x = false.
Proof.
  intros (d1 & d2 & -> & [N1 H1] & [N2 H2]). now apply py_float_decimal.
Qed.

(** The coercions of lines 164-170 succeed on texts of the shapes the
    groups of [pattern] have. *)
Lemma coerce_shaped (g1 g2 g3 g4 g5 g6 g7 : str) :
  decimal g3 -> digits g4 -> decimal g5 -> digits g6 -> decimal g7 ->
  length g4 <= int_max_str_digits -> length g6 <= int_max_str_digits ->
  exists p1 c1 p2 c2 fs,
    py_float g3 = Some p1 /\ py_int g4 = Some c1
    /\ py_float g5 = Some p2 /\ py_int g6 = Some c2
    /\ py_float g7 = Some fs
    /\ coerce [g1; g2; g3; g4; g5; g6; g7]
       = Some (MkCandidate (strip g1) (strip g2) p1 c1 p2 c2 fs).
Proof.
  intros H3 H4 H5 H6 H7 L4 L6.
  destruct (py_float_of_decimal H3) as (p1 & E3 & _).
  destruct (py_int_digits H4 L4) as (c1 & E4 & _).
  destruct (py_float_of_decimal H5) as (p2 & E5 & _).
  destruct (py_int_digits H6 L6) as (c2 & E6 & _).
  destruct (py_float_of_decimal H7) as (fs & E7 & _).
  exists p1, c1, p2, c2, fs. repeat (split; [assumption|]).
  unfold coerce; simpl. now rewrite E3, E4, E5, E6, E7.
Qed.

(** With a count of more digits than [int] converts, the coercion
    fails. *)
Lemma coerce_beyond_limit (g1 g2 g3 g4 g5 g6 g7 : str) :
  forallb is_digit g4 = true -> forallb is_digit g6 = true ->
  int_max_str_digits < length g4 \/ int_max_str_digits < length g6 ->
  coerce [g1; g2; g3; g4; g5; g6; g7] = None.
Proof.
  intros H4 H6 L. unfold coerce. cbn [nth_error option_map bind].
  destruct (py_float g3); cbn [bind]; [|reflexivity].
  destruct L as [L | L].
  - rewrite py_int_beyond_limit; [reflexivity|].
    now rewrite (filter_digits g4 H4).
  - destruct (py_int g4); cbn [bind]; [|reflexivity].
    destruct (py_float g5); cbn [bind]; [|reflexivity].
    rewrite py_int_beyond_limit; [reflexivity|].
    now rewrite (filter_digits g6 H6).
Qed.

Lemma primary_match_yields_record_aux (chunk : str) (m : re_match) :
  search pattern chunk = Some m ->
  length (nth 3 (m_groups m) []) <= int_max_str_digits ->
  length (nth 5 (m_groups m) []) <= int_max_str_digits ->
  exists r,
    scan_chunk chunk = ([m_groups m], [])
    /\ coerce (m_groups m) = Some r
    /\ chunk_candidates chunk = [r].
Proof.
  intros H L4 L6. pose proof H as H'.
  apply search_from_sound in H' as (pre & post & _ & _ & D & _).
  apply pattern_groups in D
    as (g1 & g2 & g3 & g4 & g5 & g6 & g7 & Hg & _ & _ & H3 & H4 & H5 & H6 & H7).
  rewrite Hg in L4, L6. cbn [nth] in L4, L6.
  destruct (coerce_shaped g1 g2 H3 H4 H5 H6 H7 L4 L6)
    as (p1 & c1 & p2 & c2 & fs & _ & _ & _ & _ & _ & Hc).
  assert (Hs : scan_chunk chunk = ([m_groups m], []))
    by (unfold scan_chunk; now rewrite H).
  eexists. split; [exact Hs|]. rewrite Hg. split; [exact Hc|].
  unfold chunk_candidates. rewrite Hs, Hg. simpl. now rewrite Hc.
Qed.

(** C1, amended.  When the primary pattern matches in a chunk and the two
    groups of the counts have no more digits than [int] converts, the
    chunk gives exactly one candidate record, without diagnostics, and the
    seven fields of the record are the seven groups of the match coerced:
    the registration and the name are the first two groups stripped, the
    three scores are [float] of groups 3, 5 and 7, and the two counts are
    [int] of groups 4 and 6. *)
Theorem primary_match_yields_record (chunk : str) (m : re_match) :
  search pattern chunk = Some m ->
  length (nth 3 (m_groups m) []) <= int_max_str_digits ->
  length (nth 5 (m_groups m) []) <= int_max_str_digits ->
  exists g1 g2 g3 g4 g5 g6 g7 r,
    m_groups m = [g1; g2; g3; g4; g5; g6; g7]
    /\ scan_chunk chunk = ([m_groups m], [])
    /\ chunk_candidates chunk = [r]
    /\ registration r = strip g1 /\ name r = strip g2
    /\ py_float g3 = Some (p1_score r)
    /\ py_int g4 = Some (p1_correct r)
    /\ py_float g5 = Some (p2_score r)
    /\ py_int g6 = Some (p2_correct r)
    /\ py_float g7 = Some (final_score r).
Proof.
  intros H L4 L6. pose proof H as H'.
  apply search_from_sound in H' as (pre & post & _ & _ & D & _).
  apply pattern_groups in D
    as (g1 & g2 & g3 & g4 & g5 & g6 & g7 & Hg & _ & _ & H3 & H4 & H5 & H6 & H7).
  rewrite Hg in L4, L6. cbn [nth] in L4, L6.
  destruct (coerce_shaped g1 g2 H3 H4 H5 H6 H7 L4 L6)
    as (p1 & c1 & p2 & c2 & fs & E3 & E4 & E5 & E6 & E7 & Hc).
  exists g1, g2, g3, g4, g5, g6, g7,
    (MkCandidate (strip g1) (strip g2) p1 c1 p2 c2 fs).
  assert (Hs : scan_chunk chunk = ([m_groups m], []))
    by (unfold scan_chunk; now rewrite H).
  split; [exact Hg|]. split; [exact Hs|].
  split; [unfold chunk_candidates; rewrite Hs, Hg; simpl; now rewrite Hc|].
  simpl. auto 10.
Qed.

(** C9, amended.  When some part [w] of a chunk is covered by the primary
    pattern, whatever stands before and after it, the search succeeds:
    the chunk gives the groups of the match as its only entry, without
    any diagnostic (the manual parsing is not tried), and one record is
    built from them when the two groups of the counts have no more digits
    than [int] converts; with a longer count no record is built.  The
    match is the first one: it starts at or before [w], and no text that
    starts further left is covered by the pattern. *)
Theorem pattern_found_anywhere (pre w post : str) (g : list str) :
  derives pattern w g ->
  exists m pre' post',
    search pattern (pre ++ w ++ post) = Some m
    /\ pre ++ w ++ post = pre' ++ m_text m ++ post'
    /\ length pre' = m_start m /\ m_start m <= length pre
    /\ derives pattern (m_text m) (m_groups m)
    /\ (forall a b w' g' s,
          pre' = a ++ b -> b <> [] -> derives pattern w' g' ->
          b ++ m_text m ++ post' <> w' ++ s)
    /\ scan_chunk (pre ++ w ++ post) = ([m_groups m], [])
    /\ (length (nth 3 (m_groups m) []) <= int_max_str_digits ->
        length (nth 5 (m_groups m) []) <= int_max_str_digits ->
        exists r,
          coerce (m_groups m) = Some r
          /\ chunk_candidates (pre ++ w ++ post) = [r])
    /\ (int_max_str_digits < length (nth 3 (m_groups m) [])
        \/ int_max_str_digits < length (nth 5 (m_groups m) []) ->
        coerce (m_groups m) = None
        /\ chunk_candidates (pre ++ w ++ post) = []).
Proof.
  intros D.
  destruct (search_from_complete pre post D 0) as (m & Hm & Hle).
  pose proof Hm as Hs.
  apply search_from_sound in Hs as (pre' & post' & E & Hi & Dm & Hno).
  exists m, pre', post'. simpl in Hi, Hle.
  split; [exact Hm|]. split; [exact E|]. split; [now symmetry|].
  split; [exact Hle|]. split; [exact Dm|].
  assert (Hscan : scan_chunk (pre ++ w ++ post) = ([m_groups m], []))
    by (unfold scan_chunk, search; now rewrite Hm).
  split; [|split; [exact Hscan|split]].
  - intros a b w' g' s Hab Hb D'.
    exact (@no_match_inside_spec _ _ _ Hno a b w' g' s Hab Hb D').
  - intros L4 L6.
    destruct (primary_match_yields_record_aux (pre ++ w ++ post) Hm L4 L6)
      as (r & _ & Hc & Hr).
    now exists r.
  - intros L.
    apply pattern_groups in Dm
      as (g1 & g2 & g3 & g4 & g5 & g6 & g7 & Hg
          & _ & _ & _ & [_ H4] & _ & [_ H6] & _).
    rewrite Hg in L. cbn [nth] in L.
    assert (Hc : coerce (m_groups m) = None)
      by (rewrite Hg; now apply coerce_beyond_limit).
    split; [exact Hc|].
    unfold chunk_candidates. rewrite Hscan. cbn [fst process_entries].
    now rewrite Hc.
Qed.

Lemma nth_error_list_set_other (i j : nat) (v : str) (l : list str) :
  i <> j -> nth_error (list_set i v l) j = nth_error l j.
Proof.
  revert i j; induction l as [|x l IH]; intros i j Hij.
  - now destruct i.
  - destruct i as [|i], j as [|j]; simpl; try reflexivity;
      [contradiction | apply IH; lia].
Qed.

Lemma pattern_record_name (chunk : str) (m : re_match) (r : candidate) :
  search pattern chunk = Some m -> coerce (m_groups m) = Some r ->
  forallb name_char (name r) = true.
Proof.
  intros H Hc.
  apply search_from_sound in H as (pre & post & _ & _ & D & _).
  apply pattern_groups in D
    as (g1 & g2 & g3 & g4 & g5 & g6 & g7 & Hg & _ & [_ H2] & _).
  rewrite Hg in Hc. unfold coerce, bind in Hc. simpl in Hc.
  repeat match type of Hc with
         | match ?o with Some _ => _ | None => _ end = _ =>
             destruct o; [|discriminate Hc]
         end.
  injection Hc as <-. simpl. now apply strip_forallb.
Qed.

End Extraction.

(** ** Normalisation of the text *)

Lemma sub_from_skip (r : regex) (repl : list str -> str) (x s : str) :
  sub_from r repl (length x) (x ++ s) = sub_from r repl 0 s.
Proof.
  induction x as [|c x IH]; simpl; [reflexivity | exact IH].
Qed.

Lemma sub_from_no_match (r : regex) (repl : list str -> str)
      (pre rest : str) :
  no_match_inside r pre rest = true ->
  sub_from r repl 0 (pre ++ rest) = pre ++ sub_from r repl 0 rest.
Proof.
  induction pre as [|c pre IH]; simpl; intros H; [reflexivity|].
  destruct (match_at r (c :: pre ++ rest)); [discriminate|].
  now rewrite IH.
Qed.

Lemma sub_from_match (r : regex) (repl : list str -> str)
      (w rest : str) (g : list str) :
  w <> [] -> match_at r (w ++ rest) = Some (w, g) ->
  sub_from r repl 0 (w ++ rest) = repl g ++ sub_from r repl 0 rest.
Proof.
  intros Hne M. destruct w as [|c w]; [contradiction|].
  simpl app in *. cbn [sub_from]. rewrite M. f_equal.
  replace (length (c :: w) - 1) with (length w) by (simpl; lia).
  apply sub_from_skip.
Qed.

Lemma split_decimal_match (d1 w d2 post : str) :
  digits d1 -> spaces w -> digits d2 -> stops is_digit post = true ->
  match_at split_decimal_pattern (d1 ++ "."%char :: w ++ d2 ++ post)
  = Some (d1 ++ "."%char :: w ++ d2, [d1; d2]).
Proof.
  intros [N1 H1] [Nw Hw] [N2 H2] Hp.
  unfold match_at, split_decimal_pattern. cbn [seq_of].
  rewrite exec_seq, exec_group.
  apply exec_plus_greedy; [assumption | assumption | reflexivity |].
  cbv beta. rewrite exec_seq, exec_lit, exec_seq.
  assert (S2 : stops is_space (d2 ++ post) = true).
  { destruct d2 as [|c d2]; [contradiction|]. simpl in H2 |- *.
    apply andb_true_iff in H2 as [Hc _].
    now rewrite (digit_not_space c Hc). }
  apply exec_plus_greedy; [assumption | assumption | assumption |].
  cbv beta. rewrite exec_group.
  apply exec_plus_greedy; [assumption | assumption | assumption |].
  replace (d1 ++ "."%char :: w ++ d2 ++ post)
    with ((d1 ++ "."%char :: w ++ d2) ++ post)
    by (rewrite <- app_assoc; simpl; now rewrite <- app_assoc).
  rewrite !firstn_consumed.
  replace ((d1 ++ "."%char :: w ++ d2) ++ post)
    with (d1 ++ ("."%char :: w ++ d2 ++ post))
    by (rewrite <- app_assoc; simpl; now rewrite <- app_assoc).
  now rewrite firstn_consumed.
Qed.

(** C5, amended.  Scanning the whole text from the left, before it is
    split on [/]: where no match starts earlier, digits, a point, white
    space (line breaks included) and digits are rejoined into one number,
    and the rewriting goes on behind these digits; the chunks are cut from
    the text rewritten this way. *)
Theorem rejoin_decimals_leftmost (pre d1 w d2 post : str) :
  digits d1 -> spaces w -> digits d2 -> stops is_digit post = true ->
  no_match_inside split_decimal_pattern pre
                  (d1 ++ "."%char :: w ++ d2 ++ post) = true ->
  rejoin_decimals (pre ++ d1 ++ "."%char :: w ++ d2 ++ post)
  = pre ++ d1 ++ "."%char :: d2 ++ rejoin_decimals post
  /\ candidate_chunks (pre ++ d1 ++ "."%char :: w ++ d2 ++ post)
     = split (lit "/")
         (cleaned_content
            (pre ++ d1 ++ "."%char :: d2 ++ rejoin_decimals post)).
Proof.
  intros D1 W D2 P N.
  assert (E : rejoin_decimals (pre ++ d1 ++ "."%char :: w ++ d2 ++ post)
              = pre ++ d1 ++ "."%char :: d2 ++ rejoin_decimals post).
  { unfold rejoin_decimals, re_sub.
    rewrite sub_from_no_match by exact N. f_equal.
    pose proof (@split_decimal_match d1 w d2 post D1 W D2 P) as M.
    replace (d1 ++ "."%char :: w ++ d2 ++ post)
      with ((d1 ++ "."%char :: w ++ d2) ++ post) in M |- *
      by (rewrite <- app_assoc; simpl; now rewrite <- app_assoc).
    rewrite sub_from_match with (g := [d1; d2]).
    - simpl. now rewrite <- app_assoc.
    - destruct D1 as [N1 _]. now destruct d1.
    - exact M. }
  split; [exact E|]. unfold candidate_chunks. now rewrite E.
Qed.

(** What line 89 does keep out of the text: line feeds. *)
Lemma replace_newline_free (s : str) :
  forall k, ~ In (chr 10) (replace_from [chr 10] (lit " ") k s).
Proof.
  induction s as [|c s IH]; intros k; [simpl; tauto|].
  destruct k as [|k]; [|exact (IH k)].
  change (replace_from [chr 10] (lit " ") 0 (c :: s))
    with (if startswith [chr 10] (c :: s)
          then " "%char :: replace_from [chr 10] (lit " ") 0 s
          else c :: replace_from [chr 10] (lit " ") 0 s).
  destruct (startswith [chr 10] (c :: s)) eqn:E.
  - intros [H|H]; [discriminate H | exact (IH 0 H)].
  - intros [H|H]; [|exact (IH 0 H)].
    subst c. cbn [startswith] in E.
    now rewrite Ascii.eqb_refl in E.
Qed.

Lemma replace_from_Forall (P : ascii -> Prop) (old new s : str) :
  Forall P new -> Forall P s ->
  forall k, Forall P (replace_from old new k s).
Proof.
  intros Hn Hs. induction Hs as [|c s Hc Hs IH]; intros k; simpl.
  - constructor.
  - destruct k as [|k]; [|apply IH].
    destruct (startswith old (c :: s)).
    + apply Forall_app; split; [exact Hn | apply IH].
    + constructor; [exact Hc | apply IH].
Qed.

(** The text handed to the split holds no line feed, whatever the file
    holds. *)
Lemma cleaned_content_no_newline (content : str) :
  ~ In (chr 10) (cleaned_content content).
Proof.
  unfold cleaned_content, replace.
  assert (H : Forall (fun c => c <> chr 10)
                     (replace_from [chr 10] (lit " ") 0 content)).
  { apply Forall_forall. intros c Hc ->.
    exact (replace_newline_free content 0 Hc). }
  assert (B : Forall (fun c => c <> chr 10) (lit " "))
    by (repeat constructor; discriminate).
  pose proof (@replace_from_Forall (fun c => c <> chr 10)
                (lit "  ") (lit " ") _ B H 0) as G.
  rewrite Forall_forall in G. intros Hin. now apply (G _ Hin).
Qed.

(** ** The loop over the chunks *)

Section Loop.
Context {F : PyFloat}.

Lemma collect_entries_app (a b : list str) :
  forall started,
    fst (collect_entries started (a ++ b))
    = fst (collect_entries started a)
      ++ fst (collect_entries (started_after started a) b).
Proof.
  induction a as [|raw a IH]; intros started; simpl; [reflexivity|].
  destruct (chunk_step started raw) as [st [es ds]]; simpl.
  specialize (IH st).
  destruct (collect_entries st (a ++ b)) as [e1 d1].
  destruct (collect_entries st a) as [e2 d2].
  destruct (collect_entries (started_after st a) b) as [e3 d3].
  simpl in *. now rewrite IH, app_assoc.
Qed.

Lemma process_entries_app (a b : list entry) :
  fst (process_entries (a ++ b))
  = fst (process_entries a) ++ fst (process_entries b).
Proof.
  induction a as [|e a IH]; simpl; [reflexivity|].
  destruct (process_entries (a ++ b)) as [c1 d1].
  destruct (process_entries a) as [c2 d2].
  simpl in IH. subst c1.
  destruct (coerce e); reflexivity.
Qed.

Lemma chunks_candidates_app (a b : list str) (started : bool) :
  chunks_candidates started (a ++ b)
  = chunks_candidates started a
    ++ chunks_candidates (started_after started a) b.
Proof.
  unfold chunks_candidates.
  now rewrite collect_entries_app, process_entries_app.
Qed.

(** Once the data has started, it stays started. *)
Lemma chunk_step_started (raw : str) : fst (chunk_step true raw) = true.
Proof.
  unfold chunk_step, select_chunk. simpl.
  destruct (strip raw); reflexivity.
Qed.

Lemma chunks_candidates_cons (started : bool) (raw : str)
      (rest : list str) :
  chunks_candidates started (raw :: rest)
  = fst (process_entries (fst (snd (chunk_step started raw))))
    ++ chunks_candidates (fst (chunk_step started raw)) rest.
Proof.
  unfold chunks_candidates. simpl.
  destruct (chunk_step started raw) as [st [es ds]]; simpl.
  destruct (collect_entries st rest) as [es' ds']; simpl.
  apply process_entries_app.
Qed.

(** C6.  A chunk that the pattern rejects and that has fewer than seven
    comma-separated parts gives no entry (it is only announced as tried
    by the manual parsing), and the loop goes on: the candidates of the
    whole list of chunks are those of the chunks before it followed by
    those of the chunks after it, whatever these are, and when the data
    had started before it they are the candidates of the list without
    it. *)
Theorem short_chunk_dropped (started st' : bool) (pre post : list str)
        (bad chunk : str) :
  select_chunk (started_after started pre) bad = (st', Some chunk) ->
  search pattern chunk = None ->
  length (split (lit ",") chunk) < 7 ->
  chunk_step (started_after started pre) bad
  = (st', ([], [TryingAlternative chunk]))
  /\ chunks_candidates started (pre ++ bad :: post)
     = chunks_candidates started pre ++ chunks_candidates st' post
  /\ (started_after started pre = true ->
      chunks_candidates started (pre ++ bad :: post)
      = chunks_candidates started (pre ++ post)).
Proof.
  intros Hsel Hno Hlen.
  assert (Hstep : chunk_step (started_after started pre) bad
                  = (st', ([], [TryingAlternative chunk]))).
  { unfold chunk_step. rewrite Hsel. unfold scan_chunk. rewrite Hno.
    unfold manual_parse. rewrite length_map.
    apply Nat.leb_gt in Hlen. now rewrite Hlen. }
  assert (Hdec : chunks_candidates started (pre ++ bad :: post)
                 = chunks_candidates started pre
                   ++ chunks_candidates st' post).
  { rewrite chunks_candidates_app, chunks_candidates_cons.
    now rewrite Hstep. }
  split; [exact Hstep|]. split; [exact Hdec|].
  intros Hst. rewrite Hdec, chunks_candidates_app. f_equal.
  rewrite Hst in Hstep |- *.
  pose proof (chunk_step_started bad) as T.
  rewrite Hstep in T. simpl in T. now subst st'.
Qed.

(** C7.  When the file cannot be read, and when it is empty, the
    extraction returns ["Unknown"], ["Unknown"] and no record (it does
    not raise); and for an empty list of records the report builder
    only prints its notice: no file is written. *)
Theorem unreadable_or_empty_file :
  parse_candidates_data None = (Unknown, Unknown, [])
  /\ parse_candidates_data (Some []) = (Unknown, Unknown, [])
  /\ forall option_number option_title output_format output_file,
       display_ranking option_number option_title [] output_format
                       output_file
       = [NoCandidatesNotice].
Proof. repeat split. Qed.

End Loop.

(** ** The ranker *)

Section Ranking.
Context {F : PyFloat} {Laws : PyFloatLaws F}.

Lemma insort_perm (x : candidate) (l : list candidate) :
  Permutation (insort x l) (x :: l).
Proof.
  induction l as [|y l IH]; simpl; [reflexivity|].
  destruct (float_lt _ _); [reflexivity|].
  rewrite IH. apply perm_swap.
Qed.

Lemma insort_Forall (P : candidate -> Prop) (x : candidate)
      (l : list candidate) :
  P x -> Forall P l -> Forall P (insort x l).
Proof.
  intros Hx Hl. eapply Permutation_Forall.
  - symmetry. apply insort_perm.
  - now constructor.
Qed.

Lemma insort_sorted (x : candidate) (l : list candidate) :
  numeric x -> Forall numeric l ->
  StronglySorted not_above l -> StronglySorted not_above (insort x l).
Proof.
  intros Nx Nl Sl. induction Sl as [|y l Sl IH Hy]; simpl.
  - repeat constructor.
  - inversion Nl as [|? ? Ny Nl']; subst.
    destruct (float_lt (final_score x) (final_score y)) eqn:E.
    + constructor; [now constructor|].
      assert (Hxy : not_above x y).
      { unfold not_above. apply not_true_iff_false. intros C.
        pose proof (float_lt_trans _ _ _ Nx Ny Nx E C) as X.
        now rewrite (float_lt_irrefl _ Nx) in X. }
      constructor; [exact Hxy|].
      rewrite Forall_forall in Hy, Nl' |- *. intros z Hz.
      unfold not_above in *. apply not_true_iff_false. intros C.
      pose proof (float_lt_trans _ _ _ (Nl' z Hz) Nx Ny C E) as X.
      now rewrite (Hy z Hz) in X.
    + constructor; [now apply IH|].
      apply insort_Forall; [exact E | exact Hy].
Qed.

(** Inserting keeps the records of each score in their order: the new
    record goes behind those of its own score. *)
Lemma insort_stable (v : float) (x : candidate) (l : list candidate) :
  float_is_nan v = false ->
  numeric x -> Forall numeric l -> StronglySorted not_above l ->
  filter (score_is v) (insort x l)
  = filter (score_is v) l ++ filter (score_is v) [x].
Proof.
  intros Nv Nx Nl Sl. induction Sl as [|y l Sl IH Hy].
  - reflexivity.
  - inversion Nl as [|? ? Ny Nl']; subst. cbn [insort].
    destruct (float_lt (final_score x) (final_score y)) eqn:E.
    + assert (Z : score_is v x = true ->
                  forall z, In z (y :: l) -> score_is v z = false).
      { intros Px z Hz. apply not_true_iff_false. intros Pz.
        assert (Nz : numeric z).
        { rewrite Forall_forall in Nl. now apply Nl. }
        assert (Lz : float_lt (final_score x) (final_score z) = true).
        { destruct Hz as [<-|Hz]; [exact E|].
          rewrite Forall_forall in Hy. specialize (Hy z Hz).
          destruct (float_lt_cotrans _ (final_score z) _ Nx Nz Ny E)
            as [L|L]; [exact L|]. unfold not_above in Hy.
          now rewrite Hy in L. }
        unfold score_is in Px, Pz.
        rewrite (float_eq_spec _ _ Nx Nv) in Px.
        rewrite (float_eq_spec _ _ Nz Nv) in Pz.
        apply andb_true_iff in Px as [Px1 Px2].
        apply andb_true_iff in Pz as [Pz1 Pz2].
        apply negb_true_iff in Px1, Px2, Pz1, Pz2.
        destruct (float_lt_cotrans _ v _ Nx Nv Nz Lz) as [L|L];
          congruence. }
      remember (y :: l) as t eqn:Ht. clear Ht. simpl.
      destruct (score_is v x) eqn:Px; [|now rewrite app_nil_r].
      specialize (Z eq_refl).
      assert (Hnil : filter (score_is v) t = []).
      { clear - Z. induction t as [|z t IHt]; [reflexivity|].
        simpl. rewrite (Z z (or_introl eq_refl)).
        apply IHt. intros w Hw. apply Z. now right. }
      now rewrite Hnil.
    + cbn [filter]. rewrite (IH Nl').
      destruct (score_is v y); reflexivity.
Qed.

Lemma sort_fold_spec (l : list candidate) :
  forall acc,
    Forall numeric acc -> Forall numeric l ->
    StronglySorted not_above acc ->
    StronglySorted not_above (fold_left (fun a x => insort x a) l acc)
    /\ forall v, float_is_nan v = false ->
         filter (score_is v) (fold_left (fun a x => insort x a) l acc)
         = filter (score_is v) acc ++ filter (score_is v) l.
Proof.
  induction l as [|x l IH]; intros acc Na Nl Sa; simpl.
  - split; [exact Sa|]. intros v _. now rewrite app_nil_r.
  - inversion Nl as [|? ? Nx Nl']; subst.
    destruct (IH (insort x acc)) as [S1 S2].
    + now apply insort_Forall.
    + exact Nl'.
    + now apply insort_sorted.
    + split; [exact S1|]. intros v Nv.
      rewrite (S2 v Nv), (@insort_stable v x acc Nv Nx Na Sa).
      rewrite <- app_assoc. f_equal. simpl.
      destruct (score_is v x); reflexivity.
Qed.

Lemma sort_fold_perm (l : list candidate) :
  forall acc,
    Permutation (fold_left (fun a x => insort x a) l acc) (acc ++ l).
Proof.
  induction l as [|x l IH]; intros acc; simpl.
  - now rewrite app_nil_r.
  - rewrite IH, insort_perm. apply Permutation_middle.
Qed.

Lemma ranked_candidates_perm (l : list candidate) :
  Permutation l (ranked_candidates l).
Proof.
  unfold ranked_candidates, sort_by_final_score.
  rewrite <- Permutation_rev, sort_fold_perm. simpl.
  apply Permutation_rev.
Qed.

Lemma filter_rev (P : candidate -> bool) (l : list candidate) :
  filter P (rev l) = rev (filter P l).
Proof.
  induction l as [|x l IH]; simpl; [reflexivity|].
  rewrite filter_app, IH; simpl.
  destruct (P x); simpl; rewrite ?app_nil_r; reflexivity.
Qed.

Lemma StronglySorted_snoc (R : candidate -> candidate -> Prop)
      (l : list candidate) (x : candidate) :
  StronglySorted R l -> Forall (fun y => R y x) l ->
  StronglySorted R (l ++ [x]).
Proof.
  induction 1 as [|y l Sl IH Hy]; intros Hx; simpl.
  - repeat constructor.
  - inversion Hx as [|? ? Hyx Hx']; subst.
    constructor; [now apply IH|].
    apply Forall_app; split; [exact Hy | now repeat constructor].
Qed.

Lemma StronglySorted_rev (R : candidate -> candidate -> Prop)
      (l : list candidate) :
  StronglySorted R l -> StronglySorted (fun a b => R b a) (rev l).
Proof.
  induction 1 as [|x l _ IH Hx]; simpl; [constructor|].
  apply StronglySorted_snoc; [exact IH|]. now apply Forall_rev.
Qed.

Lemma StronglySorted_impl (R R' : candidate -> candidate -> Prop)
      (P : candidate -> Prop) (l : list candidate) :
  (forall a b, P a -> P b -> R a b -> R' a b) ->
  Forall P l -> StronglySorted R l -> StronglySorted R' l.
Proof.
  intros HR Pl. induction 1 as [|x l _ IH Hx]; [constructor|].
  inversion Pl as [|? ? Px Pl']; subst.
  constructor; [now apply IH|].
  rewrite Forall_forall in Hx, Pl' |- *. intros y Hy.
  apply HR; auto.
Qed.

Lemma not_below_ge (a b : candidate) :
  numeric a -> numeric b ->
  float_lt (final_score a) (final_score b) = false -> score_ge a b.
Proof.
  intros Na Nb H. unfold score_ge.
  rewrite (float_eq_spec _ _ Na Nb), H.
  destruct (float_lt (final_score b) (final_score a)); [now left|now right].
Qed.

(** The ranking of a list of records with numeric keys. *)
Lemma ranked_candidates_spec (l : list candidate) :
  Forall numeric l ->
  Permutation l (ranked_candidates l)
  /\ StronglySorted score_ge (ranked_candidates l)
  /\ forall v, float_is_nan v = false ->
       filter (score_is v) (ranked_candidates l) = filter (score_is v) l.
Proof.
  intros Nl. split; [apply ranked_candidates_perm|].
  assert (Nr : Forall numeric (rev l)) by now apply Forall_rev.
  destruct (@sort_fold_spec (rev l) [] (Forall_nil _) Nr
                            (SSorted_nil _)) as [S1 S2].
  split.
  - apply StronglySorted_rev in S1.
    apply StronglySorted_impl with (P := numeric) (3 := S1).
    + intros a b Na Nb H. now apply not_below_ge.
    + eapply Permutation_Forall; [apply ranked_candidates_perm|exact Nl].
  - intros v Nv. unfold ranked_candidates, sort_by_final_score.
    rewrite filter_rev, (S2 v Nv); simpl.
    rewrite filter_rev. apply rev_involutive.
Qed.

(** C2.  Called on the address of a list of records whose final scores
    are numbers, [build_ranking] returns (it does not raise) the address
    of a list that is a permutation of the argument, sorted by
    [final_score] in descending order, and stable: for every score, the
    records with that score come in the same order in the ranking as in
    the argument; no other key is used. *)
Theorem build_ranking_sorted_stable (h : store) (a : nat)
        (l : list candidate) :
  nth_error h a = Some l ->
  Forall numeric l ->
  exists a' h' out,
    build_ranking h a = Some (a', h')
    /\ nth_error h' a' = Some out
    /\ Permutation l out
    /\ StronglySorted score_ge out
    /\ forall v, float_is_nan v = false ->
         filter (score_is v) out = filter (score_is v) l.
Proof.
  intros Ha Nl. exists (length h), (h ++ [ranked_candidates l]).
  exists (ranked_candidates l).
  split; [unfold build_ranking; now rewrite Ha|].
  split; [now rewrite nth_error_app2, Nat.sub_diag by lia|].
  now apply ranked_candidates_spec.
Qed.

(** C10.  [build_ranking] leaves its argument as it was: after the call
    every list object of the store before the call, the argument among
    them, holds the same records in the same order, and the ranking is a
    new object, at an address no list had before. *)
Theorem build_ranking_fresh (h : store) (a : nat) (l : list candidate) :
  nth_error h a = Some l ->
  exists a' h',
    build_ranking h a = Some (a', h')
    /\ nth_error h' a = Some l
    /\ (forall b x, nth_error h b = Some x -> nth_error h' b = Some x)
    /\ nth_error h a' = None
    /\ a' <> a
    /\ nth_error h' a' = Some (ranked_candidates l).
Proof.
  intros Ha. exists (length h), (h ++ [ranked_candidates l]).
  assert (Hlt : a < length h) by (apply nth_error_Some; congruence).
  split; [unfold build_ranking; now rewrite Ha|].
  split; [now rewrite nth_error_app1|].
  split.
  { intros b x Hb. rewrite nth_error_app1; [exact Hb|].
    apply nth_error_Some; congruence. }
  split; [now apply nth_error_None|].
  split; [lia|].
  now rewrite nth_error_app2, Nat.sub_diag by lia.
Qed.

End Ranking.

(** ** File names *)





Section Report.
Context {F : PyFloat}.


End Report.

(** ** Further properties of the normalisation and of the split *)

Lemma split_from_not_nil (sep s : str) : forall k, split_from sep k s <> [].
Proof.
  induction s as [|c s IH]; intros k; simpl; [discriminate|].
  destruct k as [|k]; [|apply IH].
  destruct (startswith sep (c :: s)); [discriminate|].
  destruct (split_from sep 0 s); discriminate.
Qed.

Lemma join_cons (sep x : str) (l : list str) :
  l <> [] -> join sep (x :: l) = x ++ sep ++ join sep l.
Proof. destruct l; [contradiction | reflexivity]. Qed.

Lemma join_split_from (sep : str) :
  sep <> [] ->
  forall s k, join sep (split_from sep k s) = skipn k s.
Proof.
  intros Hsep. induction s as [|c s IH]; intros k.
  - now destruct k.
  - destruct k as [|k]; [|exact (IH k)].
    cbn [split_from]. destruct (startswith sep (c :: s)) eqn:E.
    + rewrite join_cons by apply split_from_not_nil.
      rewrite IH. apply startswith_prefix in E as [t Ht].
      destruct sep as [|c0 sep']; [contradiction|].
      simpl in Ht. injection Ht as -> ->. simpl.
      rewrite Nat.sub_0_r, skipn_app, skipn_all, Nat.sub_diag. reflexivity.
    + specialize (IH 0). simpl in IH.
      destruct (split_from sep 0 s) as [|p ps] eqn:S;
        [now apply split_from_not_nil in S|].
      destruct ps as [|q ps].
      * simpl in IH |- *. now rewrite IH.
      * rewrite join_cons in IH |- * by discriminate.
        rewrite <- IH. reflexivity.
Qed.

Lemma split_char_free (c : ascii) (s : str) :
  forall k, Forall (fun p => ~ In c p) (split_from [c] k s).
Proof.
  induction s as [|c' s IH]; intros k; simpl.
  - repeat constructor. tauto.
  - destruct k as [|k]; [|apply IH].
    destruct (Ascii.eqb c c') eqn:E; simpl.
    + constructor; [tauto | apply IH].
    + specialize (IH 0). destruct (split_from [c] 0 s) as [|p ps].
      * repeat constructor. simpl. intros [H|[]]. subst.
        now rewrite Ascii.eqb_refl in E.
      * inversion IH as [|? ? Hp Hps]; subst. constructor; [|exact Hps].
        simpl. intros [H|H]; [|now apply Hp].
        subst. now rewrite Ascii.eqb_refl in E.
Qed.

(** The chunks lose nothing of the normalised text: joined by [/] they
    give it back, and no chunk holds a [/]. *)
Theorem candidate_chunks_join (content : str) :
  join (lit "/") (candidate_chunks content)
  = cleaned_content (rejoin_decimals content)
  /\ Forall (fun chunk => ~ In "/"%char chunk) (candidate_chunks content)
  /\ candidate_chunks content <> [].
Proof.
  unfold candidate_chunks, split. split; [|split].
  - now rewrite join_split_from by discriminate.
  - apply split_char_free.
  - apply split_from_not_nil.
Qed.

Lemma replace_absent (old new s : str) :
  contains old s = false -> replace old new s = s.
Proof.
  unfold replace. induction s as [|c s IH]; intros H; [reflexivity|].
  cbn [contains] in H. apply orb_false_iff in H as [H1 H2].
  cbn [replace_from]. rewrite H1. now rewrite IH.
Qed.

(** A text without line feeds and without two adjacent blanks is left as
    it is by line 89. *)
Theorem cleaned_content_clean (content : str) :
  contains [chr 10] content = false ->
  contains (lit "  ") content = false ->
  cleaned_content content = content.
Proof.
  intros H1 H2. unfold cleaned_content.
  rewrite (@replace_absent [chr 10] (lit " ") content H1).
  now apply replace_absent.
Qed.

Lemma point_then_space_app (a b : str) :
  point_then_space b = true -> point_then_space (a ++ b) = true.
Proof.
  intros H. induction a as [|c a IH]; simpl; [exact H|].
  rewrite IH. apply orb_true_r.
Qed.

Lemma split_decimal_match_point (t w : str) (g : list str) :
  match_at split_decimal_pattern t = Some (w, g) ->
  point_then_space t = true.
Proof.
  intros H. apply match_at_sound in H as (s' & -> & D).
  unfold split_decimal_pattern in D. simpl in D.
  repeat match goal with
         | H : derives (Seq _ _) _ _ |- _ => inversion H; subst; clear H
         | H : derives (Group _) _ _ |- _ => inversion H; subst; clear H
         | H : derives (Plus _) _ _ |- _ => inversion H; subst; clear H
         | H : derives (Lit _) _ _ |- _ => inversion H; subst; clear H
         end.
  rewrite <- app_assoc. apply point_then_space_app.
  match goal with
  | Hw : forallb is_space ?ws = true, Hn : ?ws <> [] |- _ =>
      destruct ws as [|c ws']; [contradiction|];
      simpl in Hw; apply andb_true_iff in Hw as [Hc _]
  end.
  simpl. now rewrite Hc.
Qed.

(** Line 86 leaves alone every text in which no point is directly
    followed by white space: numbers written in one piece are not
    touched. *)
Theorem rejoin_decimals_untouched (content : str) :
  point_then_space content = false -> rejoin_decimals content = content.
Proof.
  unfold rejoin_decimals, re_sub.
  induction content as [|c s IH]; intros H; [reflexivity|].
  cbn [sub_from].
  destruct (match_at split_decimal_pattern (c :: s)) as [[w g]|] eqn:M.
  - apply split_decimal_match_point in M. congruence.
  - simpl in H. apply orb_false_iff in H as [_ H]. now rewrite IH.
Qed.

(** ** Further properties of the loop over the chunks *)

Lemma lstrip_with_all (sp : ascii -> bool) (s : str) :
  forallb sp s = true -> lstrip_with sp s = [].
Proof.
  induction s as [|c s IH]; simpl; [reflexivity|].
  intros H. apply andb_true_iff in H as [Hc Hs]. now rewrite Hc, IH.
Qed.

Lemma strip_blank (s : str) : forallb is_space s = true -> strip s = [].
Proof.
  intros H. unfold strip, strip_with.
  rewrite (lstrip_with_all is_space s H). reflexivity.
Qed.

Lemma split_from_skip (sep x s : str) :
  split_from sep (length x) (x ++ s) = split_from sep 0 s.
Proof.
  induction x as [|c x IH]; simpl; [reflexivity | exact IH].
Qed.

Lemma split_first (sep a b : str) :
  sep <> [] ->
  no_occurrence_inside sep a (sep ++ b) = true ->
  split sep (a ++ sep ++ b) = a :: split sep b.
Proof.
  intros Hsep. unfold split. induction a as [|c a IH]; intros H.
  - destruct sep as [|c0 sep']; [contradiction|].
    change ([] ++ (c0 :: sep') ++ b) with (c0 :: sep' ++ b).
    cbn [split_from].
    change (c0 :: sep' ++ b) with ((c0 :: sep') ++ b).
    rewrite startswith_app. f_equal.
    replace (length (c0 :: sep') - 1) with (length sep') by (simpl; lia).
    apply split_from_skip.
  - cbn [no_occurrence_inside] in H. apply andb_true_iff in H as [H1 H2].
    apply negb_true_iff in H1.
    change ((c :: a) ++ sep ++ b) with (c :: a ++ sep ++ b) in H1 |- *.
    cbn [split_from]. rewrite H1, (IH H2). reflexivity.
Qed.

Lemma split_absent (sep s : str) :
  contains sep s = false -> split sep s = [s].
Proof.
  unfold split. induction s as [|c s IH]; intros H; [reflexivity|].
  cbn [contains] in H. apply orb_false_iff in H as [H1 H2].
  cbn [split_from]. rewrite H1, (IH H2). reflexivity.
Qed.

Section Loop_more.
Context {F : PyFloat}.

(** A chunk of white space only, the empty chunk included, is passed
    over: it prints nothing, does not start the data, and the candidates
    are those of the list without it. *)
Theorem blank_chunk_skipped (started : bool) (pre post : list str)
        (blank : str) :
  forallb is_space blank = true ->
  (forall st, chunk_step st blank = (st, ([], [])))
  /\ chunks_candidates started (pre ++ blank :: post)
     = chunks_candidates started (pre ++ post).
Proof.
  intros H.
  assert (S : forall st, chunk_step st blank = (st, ([], [])))
    by (intros st; unfold chunk_step, select_chunk;
        now rewrite (strip_blank _ H)).
  split; [exact S|].
  rewrite !chunks_candidates_app, chunks_candidates_cons, S. reflexivity.
Qed.

(** Before the data has started, a chunk that holds the word of the
    header and no section marker is taken for preamble: nothing of it is
    scanned, nothing is printed for it, and the data has still not
    started after it. *)
Theorem header_without_marker (raw : str) :
  contains OPCAO (strip raw) = true ->
  contains SUBAREA (strip raw) = false ->
  chunk_step false raw = (false, ([], [])).
Proof.
  intros H1 H2. unfold chunk_step, select_chunk.
  destruct (strip raw) as [|c s] eqn:E; [discriminate H1|].
  cbn [negb andb]. rewrite H1, (split_absent _ _ H2). reflexivity.
Qed.

(** Before the data has started, of a chunk that holds the word of the
    header, only the text between its first section marker and the next
    one is scanned: what stands before the first marker, and what stands
    behind a second one, gives no candidate. *)
Theorem header_with_marker (raw a b : str) :
  strip raw = a ++ SUBAREA ++ b ->
  contains OPCAO (strip raw) = true ->
  no_occurrence_inside SUBAREA a (SUBAREA ++ b) = true ->
  chunk_step false raw
  = (true, scan_chunk (strip (hd [] (split SUBAREA b)))).
Proof.
  intros E H1 H2. unfold chunk_step, select_chunk.
  destruct (strip raw) as [|c s] eqn:Es; [discriminate H1|].
  cbn [negb andb]. rewrite H1, E.
  rewrite split_first by (discriminate || exact H2).
  pose proof (@split_from_not_nil SUBAREA b 0) as N. unfold split.
  destruct (split_from SUBAREA 0 b) as [|p ps]; [contradiction|].
  reflexivity.
Qed.

(** Where no chunk holds the word of the header, no chunk is taken for
    preamble: the candidates do not depend on whether the data had
    started. *)
Theorem header_word_absent (chunks : list str) :
  Forall (fun raw => contains OPCAO (strip raw) = false) chunks ->
  forall st st', chunks_candidates st chunks = chunks_candidates st' chunks.
Proof.
  induction 1 as [|raw chunks Hraw _ IH]; intros st st'; [reflexivity|].
  rewrite !chunks_candidates_cons.
  assert (S : forall s, chunk_step s raw
                   = match strip raw with
                     | [] => (s, ([], []))
                     | _ => (true, scan_chunk (strip raw))
                     end).
  { intros s. unfold chunk_step, select_chunk. rewrite Hraw.
    rewrite andb_false_r. now destruct (strip raw). }
  rewrite !S. destruct (strip raw); simpl; [apply IH | reflexivity].
Qed.

(** A chunk that the pattern rejects and that has seven parts or more, of
    which a numeric part cannot be coerced, gives no entry: the failure is
    reported with the parts, and the loop goes on with the chunks behind
    it. *)
Theorem uncoercible_chunk_dropped (started st' : bool)
        (pre post : list str) (bad chunk : str) :
  select_chunk (started_after started pre) bad = (st', Some chunk) ->
  search pattern chunk = None ->
  7 <= length (split (lit ",") chunk) ->
  validate_parts (fix_numeric_parts (map strip (split (lit ",") chunk)))
  = None ->
  chunk_step (started_after started pre) bad
  = (st', ([], [TryingAlternative chunk;
                ManualFailed
                  (fix_numeric_parts (map strip (split (lit ",") chunk)))]))
  /\ chunks_candidates started (pre ++ bad :: post)
     = chunks_candidates started pre ++ chunks_candidates st' post.
Proof.
  intros Hsel Hno Hlen Hval.
  assert (Hstep : chunk_step (started_after started pre) bad
                  = (st', ([], [TryingAlternative chunk;
                                ManualFailed
                                  (fix_numeric_parts
                                     (map strip (split (lit ",") chunk)))]))).
  { unfold chunk_step. rewrite Hsel. unfold scan_chunk. rewrite Hno.
    unfold manual_parse. rewrite length_map.
    apply Nat.leb_le in Hlen. now rewrite Hlen, Hval. }
  split; [exact Hstep|].
  rewrite chunks_candidates_app, chunks_candidates_cons. now rewrite Hstep.
Qed.

Lemma replace_blank_free (s : str) :
  forall k, ~ In " "%char (replace_from (lit " ") [] k s).
Proof.
  induction s as [|c s IH]; intros k; [simpl; tauto|].
  destruct k as [|k]; [|exact (IH k)].
  change (replace_from (lit " ") [] 0 (c :: s))
    with (if startswith (lit " ") (c :: s)
          then replace_from (lit " ") [] 0 s
          else c :: replace_from (lit " ") [] 0 s).
  destruct (startswith (lit " ") (c :: s)) eqn:E; [apply IH|].
  intros [H|H]; [|exact (IH 0 H)].
  subst c. discriminate E.
Qed.

(** The manual parsing removes the blanks of parts 2 to 6, the numeric
    ones, and of these only: the registration, the name (with its inner
    blanks) and the parts behind the seventh stay as they are. *)
Theorem fix_numeric_parts_spec (parts : list str) :
  7 <= length parts ->
  fix_numeric_parts parts
  = firstn 2 parts
    ++ map (replace (lit " ") []) (firstn 5 (skipn 2 parts))
    ++ skipn 7 parts
  /\ Forall (fun p => ~ In " "%char p)
            (firstn 5 (skipn 2 (fix_numeric_parts parts))).
Proof.
  intros H.
  destruct parts as [|a0 [|a1 [|a2 [|a3 [|a4 [|a5 [|a6 rest]]]]]]];
    simpl in H; try lia.
  assert (E : fix_numeric_parts (a0 :: a1 :: a2 :: a3 :: a4 :: a5 :: a6 :: rest)
              = a0 :: a1 :: replace (lit " ") [] a2 :: replace (lit " ") [] a3
                :: replace (lit " ") [] a4 :: replace (lit " ") [] a5
                :: replace (lit " ") [] a6 :: rest) by reflexivity.
  split; [exact E|]. rewrite E. cbn [skipn firstn].
  repeat constructor; apply replace_blank_free.
Qed.

(** The manual parsing reads the first seven parts only: what follows
    them in the chunk does not change its outcome. *)
Theorem validate_first_seven (parts : list str) :
  7 <= length parts ->
  validate_parts (fix_numeric_parts parts)
  = validate_parts (fix_numeric_parts (firstn 7 parts)).
Proof.
  intros H.
  destruct parts as [|a0 [|a1 [|a2 [|a3 [|a4 [|a5 [|a6 rest]]]]]]];
    simpl in H; try lia.
  reflexivity.
Qed.

Lemma validate_parts_length (parts : list str) (e : entry) :
  validate_parts parts = Some e -> length e = 7.
Proof.
  unfold validate_parts, bind. intros H.
  repeat match type of H with
         | match ?o with Some _ => _ | None => _ end = _ =>
             destruct o; [|discriminate H]
         end.
  now injection H as <-.
Qed.

Lemma scan_chunk_entries (chunk : str) :
  Forall (fun e => length e = 7) (fst (scan_chunk chunk))
  /\ length (fst (scan_chunk chunk)) <= 1.
Proof.
  unfold scan_chunk.
  destruct (search pattern chunk) as [m|] eqn:S.
  - apply search_from_sound in S as (pre & post & _ & _ & D & _).
    apply pattern_groups in D as (g1 & g2 & g3 & g4 & g5 & g6 & g7 & -> & _).
    simpl. split; [now repeat constructor | lia].
  - unfold manual_parse.
    destruct (7 <=? length (map strip (split (lit ",") chunk)));
      [|simpl; split; [constructor | lia]].
    destruct (validate_parts _) as [e|] eqn:V; simpl;
      [|split; [constructor | lia]].
    split; [|lia]. repeat constructor. now apply validate_parts_length in V.
Qed.

Lemma chunk_step_entries (started : bool) (raw : str) :
  Forall (fun e => length e = 7) (fst (snd (chunk_step started raw)))
  /\ length (fst (snd (chunk_step started raw))) <= 1.
Proof.
  unfold chunk_step.
  destruct (select_chunk started raw) as [st [chunk|]]; simpl.
  - apply scan_chunk_entries.
  - split; [constructor | lia].
Qed.

Lemma collect_entries_cons (started : bool) (raw : str) (rest : list str) :
  fst (collect_entries started (raw :: rest))
  = fst (snd (chunk_step started raw))
    ++ fst (collect_entries (fst (chunk_step started raw)) rest).
Proof.
  simpl. destruct (chunk_step started raw) as [st [es ds]]; simpl.
  now destruct (collect_entries st rest).
Qed.

Lemma collect_entries_shape (chunks : list str) :
  forall started,
    Forall (fun e => length e = 7) (fst (collect_entries started chunks))
    /\ length (fst (collect_entries started chunks)) <= length chunks.
Proof.
  induction chunks as [|raw chunks IH]; intros started.
  - simpl. split; [constructor | lia].
  - rewrite collect_entries_cons.
    destruct (chunk_step_entries started raw) as [A B].
    destruct (IH (fst (chunk_step started raw))) as [A' B'].
    split; [now apply Forall_app|]. rewrite length_app. simpl. lia.
Qed.

(** Every tuple the loop of lines 98-147 collects has seven fields, so
    that the indexing of lines 164-170 never fails; and a chunk gives at
    most one tuple. *)
Theorem entries_have_seven_fields (chunks : list str) :
  forall started,
    Forall (fun e => length e = 7) (fst (collect_entries started chunks))
    /\ length (fst (collect_entries started chunks)) <= length chunks.
Proof. exact (collect_entries_shape chunks). Qed.

Lemma process_entries_length (es : list entry) :
  length (fst (process_entries es)) <= length es.
Proof.
  induction es as [|e es IH]; simpl; [lia|].
  destruct (process_entries es) as [cs ds]. simpl in IH.
  destruct (coerce e); simpl; lia.
Qed.

(** The extraction gives at most one candidate for each chunk. *)
Theorem at_most_one_candidate_per_chunk (started : bool)
        (chunks : list str) :
  length (chunks_candidates started chunks) <= length chunks.
Proof.
  unfold chunks_candidates.
  pose proof (process_entries_length (fst (collect_entries started chunks))).
  destruct (collect_entries_shape chunks started) as [_ B]. lia.
Qed.

End Loop_more.

(** ** Further properties of the extracted records and of the header *)

Lemma strip_space_digits (s : str) : forallb is_digit s = true -> strip s = s.
Proof.
  intros H. apply strip_with_id. revert H. apply forallb_impl.
  intros c Hc. now rewrite (digit_not_space c Hc).
Qed.

Section Records.
Context {F : PyFloat} {Laws : PyFloatLaws F}.

(** A record the primary pattern gives is well formed: its registration
    is a non-empty run of digits, its name is made of the characters of
    the name group, its two counts are not negative, and its three scores
    are numbers, so that it can be ranked.  The pattern gives such a
    record when the two groups of the counts have no more digits than
    [int] converts. *)
Theorem primary_record_well_formed (chunk : str) (m : re_match) :
  search pattern chunk = Some m ->
  (length (nth 3 (m_groups m) []) <= int_max_str_digits ->
   length (nth 5 (m_groups m) []) <= int_max_str_digits ->
   exists r, chunk_candidates chunk = [r])
  /\ forall r,
       In r (chunk_candidates chunk) ->
       digits (registration r)
       /\ forallb name_char (name r) = true
       /\ (0 <= p1_correct r)%Z /\ (0 <= p2_correct r)%Z
       /\ float_is_nan (p1_score r) = false
       /\ float_is_nan (p2_score r) = false
       /\ numeric r.
Proof.
  intros H. split.
  - intros L4 L6.
    destruct (primary_match_yields_record_aux chunk H L4 L6)
      as (r & _ & _ & Hr).
    now exists r.
  - intros r Hin. pose proof H as H'.
    apply search_from_sound in H' as (pre & post & _ & _ & D & _).
    apply pattern_groups in D
      as (g1 & g2 & g3 & g4 & g5 & g6 & g7 & Hg
          & H1 & H2 & H3 & H4 & H5 & H6 & H7).
    unfold chunk_candidates, scan_chunk in Hin. rewrite H, Hg in Hin.
    cbn [fst process_entries] in Hin.
    destruct (coerce [g1; g2; g3; g4; g5; g6; g7]) as [c|] eqn:Hc;
      [|destruct Hin].
    destruct Hin as [<- | []].
    destruct (py_float_of_decimal H3) as (p1 & E3 & N3).
    destruct (py_float_of_decimal H5) as (p2 & E5 & N5).
    destruct (py_float_of_decimal H7) as (fs & E7 & N7).
    unfold coerce in Hc. cbn [nth_error option_map bind] in Hc.
    rewrite E3, E5, E7 in Hc. cbn [bind] in Hc.
    destruct (py_int g4) as [c1|] eqn:E4; [|discriminate Hc].
    destruct (py_int g6) as [c2|] eqn:E6; [|discriminate Hc].
    cbn [bind] in Hc. injection Hc as <-. cbn.
    destruct H1 as [N1 D1], H2 as [_ D2].
    rewrite (strip_space_digits _ D1).
    repeat split; auto.
    + now apply strip_forallb.
    + exact (py_int_nonneg H4 E4).
    + exact (py_int_nonneg H6 E6).
Qed.

End Records.

Lemma contains_app (sub pre rest : str) :
  contains sub (pre ++ sub ++ rest) = true.
Proof.
  induction pre as [|c pre IH].
  - simpl app. pose proof (startswith_app sub rest) as H.
    destruct (sub ++ rest); simpl; now rewrite H.
  - simpl. rewrite IH. apply orb_true_r.
Qed.

Lemma title_pattern_derives (w : str) (g : list str) :
  derives title_pattern w g ->
  exists n t,
    w = OPCAO ++ " "%char :: n ++ ":"%char :: " "%char :: t
    /\ g = [n; t] /\ digits n
    /\ t <> [] /\ forallb not_newline t = true.
Proof.
  unfold title_pattern, lits, OPCAO. simpl. intros D.
  repeat match goal with
         | H : derives (Seq _ _) _ _ |- _ => inversion H; subst; clear H
         | H : derives (Group _) _ _ |- _ => inversion H; subst; clear H
         | H : derives (Plus _) _ _ |- _ => inversion H; subst; clear H
         | H : derives (Lit _) _ _ |- _ => inversion H; subst; clear H
         end.
  eexists _, _. split; [simpl; reflexivity|]. split; [reflexivity|].
  unfold digits. tauto.
Qed.

(** The option number and title of lines 75-78: without the word of the
    header in the text both are ["Unknown"]; otherwise either both are
    ["Unknown"] or the number is a non-empty run of digits and the title a
    non-empty text without line feed. *)
Theorem option_info_spec (content : str) :
  (contains OPCAO content = false ->
   option_info content = (Unknown, Unknown))
  /\ (option_info content = (Unknown, Unknown)
      \/ (digits (fst (option_info content))
          /\ snd (option_info content) <> []
          /\ ~ In (chr 10) (snd (option_info content)))).
Proof.
  unfold option_info.
  destruct (search title_pattern content) as [m|] eqn:S;
    [|split; [reflexivity | now left]].
  apply search_from_sound in S as (pre & post & E & _ & D & _).
  apply title_pattern_derives in D as (n & t & Hw & Hg & Hn & Ht & Hnl).
  rewrite Hg. simpl. split.
  - intros C. rewrite E, Hw, <- app_assoc, contains_app in C. discriminate C.
  - right. split; [exact Hn|]. split; [exact Ht|].
    intros Hin. rewrite forallb_forall in Hnl.
    specialize (Hnl _ Hin). unfold not_newline in Hnl.
    now rewrite Ascii.eqb_refl in Hnl.
Qed.

Section Greedy_title.
Variable A : Type.

Lemma exec_lits (l rest : str) (r : regex) (caps : list str)
      (k : str -> list str -> option A) :
  exec (lits l r) (l ++ rest) caps k = exec r rest caps k.
Proof.
  unfold lits. induction l as [|c l IH]; [reflexivity|].
  cbn [map seq_of app]. now rewrite exec_seq, exec_lit.
Qed.
End Greedy_title.

Lemma title_match (n t rest : str) :
  digits n -> t <> [] -> forallb not_newline t = true ->
  stops not_newline rest = true ->
  match_at title_pattern
           (OPCAO ++ " "%char :: n ++ ":"%char :: " "%char :: t ++ rest)
  = Some (OPCAO ++ " "%char :: n ++ ":"%char :: " "%char :: t, [n; t]).
Proof.
  intros [Nn Hn] Nt Ht Hr. unfold match_at, title_pattern.
  rewrite exec_lits. cbn [seq_of].
  rewrite exec_seq, exec_lit, exec_seq.
  apply exec_group_plus; [assumption | assumption | reflexivity |].
  rewrite exec_seq, exec_lit, exec_seq, exec_lit.
  apply exec_group_plus; [assumption | assumption | assumption |].
  f_equal. f_equal.
  replace (OPCAO ++ " "%char :: n ++ ":"%char :: " "%char :: t ++ rest)
    with ((OPCAO ++ " "%char :: n ++ ":"%char :: " "%char :: t) ++ rest).
  - apply firstn_consumed.
  - rewrite <- app_assoc. simpl. rewrite <- app_assoc. reflexivity.
Qed.

(** The header line: where the first match of the title pattern is the
    word of the header, a blank, digits, a colon and a blank, the option
    number is these digits and the title is all that follows up to the
    line feed or the end of the text, trailing white space and carriage
    return included. *)
Theorem option_info_header (pre n t rest : str) :
  digits n -> t <> [] -> forallb not_newline t = true ->
  stops not_newline rest = true ->
  no_match_inside title_pattern pre
    (OPCAO ++ " "%char :: n ++ ":"%char :: " "%char :: t ++ rest) = true ->
  option_info
    (pre ++ OPCAO ++ " "%char :: n ++ ":"%char :: " "%char :: t ++ rest)
  = (n, t).
Proof.
  intros Hn Nt Ht Hr Hno. unfold option_info, search.
  pose proof (@title_match n t rest Hn Nt Ht Hr) as M.
  set (s := OPCAO ++ " "%char :: n ++ ":"%char :: " "%char :: t ++ rest) in *.
  assert (G : forall i, exists w,
               search_from title_pattern i (pre ++ s)
               = Some (MkMatch (i + length pre) w [n; t])).
  { clear - M Hno. induction pre as [|c pre IH]; intros i.
    - simpl app. eexists.
      destruct s as [|c s']; cbn [search_from]; rewrite M;
        simpl; rewrite Nat.add_0_r; reflexivity.
    - cbn [no_match_inside] in Hno.
      change ((c :: pre) ++ s) with (c :: pre ++ s) in Hno |- *.
      cbn [search_from].
      destruct (match_at title_pattern (c :: pre ++ s)); [discriminate|].
      destruct (IH Hno (S i)) as [w Hw]. exists w. rewrite Hw.
      simpl. do 2 f_equal. lia. }
  destruct (G 0) as [w ->]. reflexivity.
Qed.

(** ** Further properties of the ranker *)

Section Ranking_more.
Context {F : PyFloat} {Laws : PyFloatLaws F}.

Lemma insort_last (x : candidate) (acc : list candidate) :
  Forall (fun y => not_above y x) acc -> insort x acc = acc ++ [x].
Proof.
  induction 1 as [|y acc Hy _ IH]; simpl; [reflexivity|].
  unfold not_above in Hy. now rewrite Hy, IH.
Qed.

Lemma StronglySorted_before (R : candidate -> candidate -> Prop)
      (a b : list candidate) (x : candidate) :
  StronglySorted R (a ++ x :: b) -> Forall (fun y => R y x) a.
Proof.
  induction a as [|y a IH]; simpl; intros H; [constructor|].
  inversion H as [|? ? Hs Hy]; subst. constructor; [|now apply IH].
  rewrite Forall_forall in Hy. apply Hy. apply in_elt.
Qed.

Lemma sort_fold_sorted (l : list candidate) :
  forall acc,
    StronglySorted not_above (acc ++ l) ->
    fold_left (fun a x => insort x a) l acc = acc ++ l.
Proof.
  induction l as [|x l IH]; intros acc H; simpl.
  - now rewrite app_nil_r.
  - rewrite insort_last by (now apply StronglySorted_before in H).
    rewrite IH; rewrite <- app_assoc; [reflexivity | exact H].
Qed.

Lemma score_ge_not_above (a b : candidate) :
  numeric a -> numeric b -> score_ge b a -> not_above a b.
Proof.
  unfold score_ge, not_above. intros Na Nb [H|H].
  - apply not_true_iff_false. intros C.
    pose proof (float_lt_trans _ _ _ Na Nb Na H C) as X.
    now rewrite (float_lt_irrefl _ Na) in X.
  - rewrite (float_eq_spec _ _ Nb Na) in H.
    apply andb_true_iff in H as [H _]. now apply negb_true_iff in H.
Qed.

Lemma ranked_sorted_id (l : list candidate) :
  Forall numeric l -> StronglySorted score_ge l -> ranked_candidates l = l.
Proof.
  intros Nl Sl. unfold ranked_candidates, sort_by_final_score.
  rewrite sort_fold_sorted; [apply rev_involutive|]. simpl.
  apply StronglySorted_rev in Sl.
  apply StronglySorted_impl with (P := numeric) (3 := Sl).
  - intros a b Na Nb H. now apply score_ge_not_above.
  - now apply Forall_rev.
Qed.

(** A list that is already in descending order of final score is
    returned as it is, and ranking a ranking changes nothing. *)
Theorem ranking_idempotent (l : list candidate) :
  Forall numeric l ->
  (StronglySorted score_ge l -> ranked_candidates l = l)
  /\ ranked_candidates (ranked_candidates l) = ranked_candidates l.
Proof.
  intros Nl. split; [now apply ranked_sorted_id|].
  destruct (ranked_candidates_spec Nl) as (P & S & _).
  apply ranked_sorted_id; [|exact S].
  eapply Permutation_Forall; [exact P | exact Nl].
Qed.

(** The ranking has as many records as its argument, and no record of the
    argument has a higher final score than the first of the ranking. *)
Theorem ranking_top (l : list candidate) :
  Forall numeric l ->
  length (ranked_candidates l) = length l
  /\ forall top rest,
       ranked_candidates l = top :: rest ->
       forall c, In c l -> score_ge top c.
Proof.
  intros Nl. destruct (ranked_candidates_spec Nl) as (P & S & _).
  split; [symmetry; now apply Permutation_length|].
  intros top rest E c Hc. rewrite E in P, S.
  apply (Permutation_in _ P) in Hc.
  inversion S as [|? ? _ Hall]; subst.
  destruct Hc as [<-|Hc].
  - assert (Nt : numeric top).
    { rewrite Forall_forall in Nl. apply Nl.
      apply (Permutation_in _ (Permutation_sym P)). now left. }
    right. rewrite (float_eq_spec _ _ Nt Nt), (float_lt_irrefl _ Nt).
    reflexivity.
  - rewrite Forall_forall in Hall. now apply Hall.
Qed.

End Ranking_more.

(** ** Further properties of the report builder and of the orchestrator *)

Lemma lower_char_point (c : ascii) :
  lower_char c = "."%char -> c = "."%char.
Proof.
  destruct c as [[|] [|] [|] [|] [|] [|] [|] [|]];
    vm_compute; intros H; try reflexivity; discriminate H.
Qed.

Lemma replace_from_no_point_ext (old ext s : str) :
  In "."%char ext ->
  forall k,
    ~ In "."%char (replace_from old ext k s) ->
    replace_from old ext k s = skipn k s.
Proof.
  intros He. induction s as [|c s IH]; intros k H.
  - now destruct k.
  - destruct k as [|k]; [|exact (IH k H)].
    cbn [replace_from] in H |- *.
    destruct (startswith old (c :: s)).
    + exfalso. apply H. apply in_or_app. now left.
    + simpl skipn. f_equal. apply (IH 0).
      intros Hin. apply H. now right.
Qed.

(** The end of a text in which an extension was replaced by [ext], when
    it spells [ext] in some letter case, is [ext] itself or the same end
    of the text before the replacement. *)
Lemma replace_from_ext_end (old e v : str) :
  ~ In "."%char e ->
  lower v = "."%char :: e ->
  forall s k,
    (exists u, replace_from old ("."%char :: e) k s = u ++ v) ->
    v = "."%char :: e \/ exists u, s = u ++ v.
Proof.
  intros He Hv. set (ext := "."%char :: e) in *.
  assert (Hlen : length v = length ext).
  { rewrite <- (length_map lower_char v). fold (lower v). now rewrite Hv. }
  assert (Hhead : forall c t, v = c :: t ->
                    lower_char c = "."%char /\ ~ In "."%char t).
  { intros c t ->. unfold lower in Hv. simpl in Hv.
    injection Hv as H0 H1. split; [exact H0|].
    intros Hin. apply He. rewrite <- H1.
    change "."%char with (lower_char "."%char). now apply in_map. }
  induction s as [|c s IH]; intros k [u Hu].
  - destruct k; simpl in Hu; destruct u, v; discriminate.
  - destruct k as [|k].
    2:{ cbn [replace_from] in Hu.
        destruct (IH k) as [E|E]; [eauto | now left |].
        right. now apply suffix_cons. }
    cbn [replace_from] in Hu.
    destruct (startswith old (c :: s)) eqn:Hm.
    + apply app_eq_app in Hu as [l [[H1 H2]|[H1 H2]]].
      * destruct l as [|c0 l].
        -- simpl in H2.
           destruct (IH (length old - 1)) as [E|E];
             [exists []; now rewrite <- H2 | now left |].
           right. now apply suffix_cons.
        -- destruct u as [|u0 u].
           ++ simpl in H1. left.
              assert (L : length (replace_from old ext (length old - 1) s)
                          = 0).
              { apply (f_equal (@length ascii)) in H2.
                rewrite <- H1, length_app, Hlen in H2. lia. }
              apply length_zero_iff_nil in L. rewrite L, app_nil_r in H2.
              congruence.
           ++ exfalso. destruct (Hhead c0 _ H2) as [Hc0 _].
              apply lower_char_point in Hc0. subst c0.
              unfold ext in H1. simpl in H1. injection H1 as _ H1.
              apply He. rewrite H1. apply in_elt.
      * destruct (IH (length old - 1)) as [E|E]; [eauto | now left |].
        right. now apply suffix_cons.
    + destruct u as [|u0 u].
      * simpl in Hu. right. exists []. simpl.
        destruct (Hhead _ _ (eq_sym Hu)) as [_ Hp].
        rewrite <- Hu. f_equal. symmetry.
        rewrite (@replace_from_no_point_ext old ext s (or_introl eq_refl) 0 Hp).
        reflexivity.
      * simpl in Hu. injection Hu as _ Hu.
        destruct (IH 0) as [E|E]; [eauto | now left |].
        right. now apply suffix_cons.
Qed.

Lemma lower_end_ext (ext s : str) :
  endswith ext (lower s) = true <->
  exists u v, s = u ++ v /\ lower v = ext.
Proof.
  rewrite endswith_suffix. split.
  - intros [t Ht]. unfold lower in Ht.
    apply map_eq_app in Ht as (u & v & -> & _ & Hv). now exists u, v.
  - intros (u & v & -> & Hv). exists (lower u).
    unfold lower in *. now rewrite map_app, Hv.
Qed.

Lemma renamed_end (a b e f : str) :
  ~ In "."%char e ->
  endswith ("."%char :: e) (lower f) = false ->
  endswith ("."%char :: e)
           (lower (replace b ("."%char :: e) (replace a ("."%char :: e) f)))
  = true ->
  endswith ("."%char :: e)
           (replace b ("."%char :: e) (replace a ("."%char :: e) f)) = true.
Proof.
  intros He Hf Hr.
  apply lower_end_ext in Hr as (u & v & Hr & Hv).
  apply endswith_suffix.
  destruct (@replace_from_ext_end b e v He Hv
              (replace a ("."%char :: e) f) 0) as [E|[u1 E]].
  - exists u. exact Hr.
  - exists u. now rewrite Hr, E.
  - destruct (@replace_from_ext_end a e v He Hv f 0) as [E'|[u2 E']].
    + exists u1. exact E.
    + exists u. now rewrite Hr, E'.
    + exfalso.
      assert (X : endswith ("."%char :: e) (lower f) = true)
        by (apply lower_end_ext; now exists u2, v).
      congruence.
Qed.

Lemma reconcile_exact_end (fmt : file_format) (output_file : str) :
  endswith (extension fmt) (lower output_file) = false ->
  endswith (extension fmt) (reconcile fmt output_file) = true.
Proof.
  intros Hf. unfold reconcile.
  assert (G : forall a b e,
             extension fmt = "."%char :: e -> ~ In "."%char e ->
             endswith (extension fmt)
               (if negb (endswith (extension fmt) (lower output_file))
                then
                  if negb (endswith (extension fmt)
                             (lower (replace b (extension fmt)
                                       (replace a (extension fmt) output_file))))
                  then replace b (extension fmt)
                         (replace a (extension fmt) output_file)
                       ++ extension fmt
                  else replace b (extension fmt)
                         (replace a (extension fmt) output_file)
                else output_file) = true).
  { intros a b e Ee He. rewrite Hf. cbn [negb].
    destruct (endswith (extension fmt) (lower (replace _ _ _))) eqn:Hr;
      cbn [negb].
    - rewrite Ee in *. now apply renamed_end.
    - apply endswith_suffix. eexists. reflexivity. }
  destruct fmt; cbn [extension] in *.
  - apply (G (lit ".txt") (lit ".csv") (lit "xlsx")); [reflexivity|].
    simpl. intros [H|[H|[H|[H|[]]]]]; discriminate H.
  - apply (G (lit ".txt") (lit ".xlsx") (lit "csv")); [reflexivity|].
    simpl. intros [H|[H|[H|[]]]]; discriminate H.
  - apply (G (lit ".csv") (lit ".xlsx") (lit "txt")); [reflexivity|].
    simpl. intros [H|[H|[H|[]]]]; discriminate H.
Qed.

Lemma extension_lower (fmt : file_format) :
  lower (extension fmt) = extension fmt.
Proof. destruct fmt; reflexivity. Qed.

Lemma reconcile_lower_end (fmt : file_format) (output_file : str) :
  endswith (extension fmt) (lower (reconcile fmt output_file)) = true.
Proof.
  destruct (endswith (extension fmt) (lower output_file)) eqn:Hf.
  - unfold reconcile. destruct fmt; cbn [extension] in *;
      rewrite Hf; exact Hf.
  - pose proof (reconcile_exact_end fmt output_file Hf) as H.
    apply endswith_suffix in H as [t Ht]. rewrite Ht.
    apply endswith_suffix. exists (lower t).
    unfold lower. rewrite map_app. fold (lower (extension fmt)).
    now rewrite extension_lower.
Qed.

(** For each of the three formats: a name that does not end in the
    extension of the format, in any letter case, is turned into a name
    that ends in exactly this extension. *)
Theorem reconcile_extension (fmt : file_format) (output_file : str) :
  endswith (extension fmt) (lower output_file) = false ->
  endswith (extension fmt) (reconcile fmt output_file) = true.
Proof. apply reconcile_exact_end. Qed.

(** For each of the three formats, whatever the name: the reconciled name
    ends in the extension of the format up to letter case, and reconciling
    it again changes nothing. *)
Theorem reconcile_idempotent (fmt : file_format) (output_file : str) :
  endswith (extension fmt) (lower (reconcile fmt output_file)) = true
  /\ reconcile fmt (reconcile fmt output_file) = reconcile fmt output_file.
Proof.
  pose proof (reconcile_lower_end fmt output_file) as E.
  split; [exact E|].
  unfold reconcile at 1. destruct fmt; cbn [extension] in *;
    rewrite E; reflexivity.
Qed.


Section Orchestrator_properties.
Context {F : PyFloat} {Laws : PyFloatLaws F}.

Lemma ranks_columns (l : list candidate) :
  map fst (ranks l) = seq 1 (length l) /\ map snd (ranks l) = l.
Proof.
  unfold ranks. generalize 1. induction l as [|c l IH]; intros k.
  - now split.
  - simpl. destruct (IH (S k)) as [A B]. now rewrite A, B.
Qed.

(** What the report builder writes: never more than one file; one exactly
    when there are records and a non-empty file name was given; and the
    file written is named with the extension of its format (in some
    letter case) and lists the records in the order received, numbered
    from 1. *)
Theorem display_ranking_writes (option_number option_title : str)
        (candidates : list candidate) (output_format : str)
        (output_file : option str) :
  let shown := display_ranking option_number option_title candidates
                               output_format output_file in
  writes shown <= 1
  /\ (writes shown = 1 <->
      candidates <> [] /\ exists c f, output_file = Some (c :: f))
  /\ forall fmt file rows,
       In (FileWrite fmt file rows) shown ->
       endswith (extension fmt) (lower file) = true
       /\ map fst rows = seq 1 (length candidates)
       /\ map snd rows = candidates.
Proof.
  cbv zeta. unfold display_ranking.
  destruct candidates as [|c0 cs].
  - split; [cbn; lia|]. split.
    + cbn. split; [discriminate | now intros [[] _]].
    + intros k f r [H|[]]. discriminate H.
  - destruct output_file as [[|c f]|].
    + split; [cbn; lia|]. split.
      * cbn. split; [discriminate|]. intros [_ (c & f & H)]. discriminate H.
      * intros k f r [H|[]]. discriminate H.
    + split; [cbn; lia|]. split.
      * cbn. split; [|reflexivity]. intros _. split; [discriminate|].
        now exists c, f.
      * intros k f' r [H|[H|[]]]; [discriminate H|].
        injection H as <- <- <-. split; [apply reconcile_lower_end|].
        apply ranks_columns.
    + split; [cbn; lia|]. split.
      * cbn. split; [discriminate|]. intros [_ (c & f & H)]. discriminate H.
      * intros k f r [H|[]]. discriminate H.
Qed.

Lemma main_with_candidates (file : option str) (c : candidate)
      (cs : list candidate) :
  snd (parse_candidates_data file) = c :: cs ->
  main file
  = [Shown (ConsoleTable (ranks (ranked_candidates (c :: cs)))
                         (length (ranks (ranked_candidates (c :: cs))) - 20));
     Shown (FileWrite Xlsx (lit "ranking_40000188.xlsx")
                      (ranks (ranked_candidates (c :: cs))));
     SuccessBanner (lit "ranking_40000188.xlsx") (length (c :: cs))].
Proof.
  intros H. unfold main.
  destruct (parse_candidates_data file) as [[n t] l]. simpl in H. subst l.
  unfold display_ranking.
  pose proof (@ranked_candidates_perm F (c :: cs)) as P.
  destruct (ranked_candidates (c :: cs)) as [|r rs] eqn:E.
  - apply Permutation_sym, Permutation_nil in P. discriminate P.
  - reflexivity.
Qed.

(** The whole run, when the extraction finds records: the table is shown,
    one spreadsheet is written under the name [ranking_40000188.xlsx], and
    the closing banner counts the records found.  The rows shown and the
    rows written are the same: the records found, each once, numbered from
    1, and in descending order of final score when the scores are
    numbers. *)
Theorem main_success (file : option str) :
  snd (parse_candidates_data file) <> [] ->
  exists rows,
    main file
    = [Shown (ConsoleTable rows (length rows - 20));
       Shown (FileWrite Xlsx (lit "ranking_40000188.xlsx") rows);
       SuccessBanner (lit "ranking_40000188.xlsx")
                     (length (snd (parse_candidates_data file)))]
    /\ map fst rows = seq 1 (length (snd (parse_candidates_data file)))
    /\ Permutation (snd (parse_candidates_data file)) (map snd rows)
    /\ (Forall numeric (snd (parse_candidates_data file)) ->
        StronglySorted score_ge (map snd rows)).
Proof.
  intros H.
  destruct (snd (parse_candidates_data file)) as [|c cs] eqn:E;
    [now elim H|].
  exists (ranks (ranked_candidates (c :: cs))).
  split; [now apply main_with_candidates|].
  destruct (ranks_columns (ranked_candidates (c :: cs))) as [A B].
  rewrite A, B. split; [|split].
  - f_equal. symmetry. apply Permutation_length.
    apply ranked_candidates_perm.
  - apply ranked_candidates_perm.
  - intros N. now destruct (ranked_candidates_spec N) as (_ & S & _).
Qed.

(** The run ends on the failure banner alone, with nothing shown and
    nothing written, exactly when the extraction finds no record; an
    unreadable file is one such case. *)
Theorem main_failure_iff (file : option str) :
  (main file = [FailureBanner] <-> snd (parse_candidates_data file) = [])
  /\ main None = [FailureBanner].
Proof.
  split; [|reflexivity]. split.
  - intros H.
    destruct (snd (parse_candidates_data file)) as [|c cs] eqn:E;
      [reflexivity|].
    rewrite (main_with_candidates _ E) in H. discriminate H.
  - intros H. unfold main.
    destruct (parse_candidates_data file) as [[n t] l]. simpl in H.
    now subst l.
Qed.

End Orchestrator_properties.

(** ** The progress bar *)




(** ** The manual parsing and the pattern *)

Lemma replace_blank_filter (s : str) :
  replace (lit " ") [] s = remove_blanks s.
Proof.
  unfold replace, remove_blanks. induction s as [|c s IH]; [reflexivity|].
  change (replace_from (lit " ") [] 0 (c :: s))
    with (if startswith (lit " ") (c :: s)
          then replace_from (lit " ") [] 0 s
          else c :: replace_from (lit " ") [] 0 s).
  change (startswith (lit " ") (c :: s)) with (Ascii.eqb " "%char c && true).
  cbn [filter]. rewrite andb_true_r, Ascii.eqb_sym, IH.
  now destruct (Ascii.eqb c " "%char).
Qed.

Lemma not_none_some (A : Type) (o : option A) :
  o <> None -> exists a, o = Some a.
Proof. destruct o as [a|]; [now exists a | contradiction]. Qed.

Section Fallback.
Context {F : PyFloat} {Repr : PyFloatRepr F}.

(** A tuple whose first count [int] does not read gives no record. *)
Lemma coerce_count_unread (g1 g2 g3 g4 g5 g6 g7 : str) :
  py_int g4 = None -> coerce [g1; g2; g3; g4; g5; g6; g7] = None.
Proof.
  intros H. unfold coerce. cbn [nth_error option_map bind].
  destruct (py_float g3); cbn [bind]; [|reflexivity].
  now rewrite H.
Qed.

Lemma py_float_reads_back (s : str) (x : float) :
  decimal s -> py_float s = Some x -> py_float (float_str x) = Some x.
Proof.
  intros (d1 & d2 & -> & [N1 H1] & [N2 H2]).
  now apply float_str_reads_back.
Qed.

(** C3, amended.  For a chunk that the pattern rejects, that has at
    least seven comma-separated parts, and whose seven fields (the
    first seven parts stripped, the five numeric ones without their
    blanks) are coercible and are texts the groups of the pattern can
    hold (digits, a name of the pattern's characters, digits with a
    point): the manual parsing gives one record, the pattern matches the
    equivalent input with the fields as its groups, and the record the
    pattern gives on the equivalent input is the record of the manual
    parsing, which is the record of the seven fields coerced. *)
Theorem manual_entry_matches_pattern (chunk : str) :
  search pattern chunk = None ->
  7 <= length (split (lit ",") chunk) ->
  coercible (chunk_fields chunk) ->
  pattern_shaped (chunk_fields chunk) = true ->
  exists r,
    snd (scan_chunk chunk) = [TryingAlternative chunk; ManualParsed]
    /\ chunk_candidates chunk = [r]
    /\ search pattern (equivalent_input chunk)
       = Some (MkMatch 0 (equivalent_input chunk) (chunk_fields chunk))
    /\ chunk_candidates (equivalent_input chunk) = [r]
    /\ coerce (chunk_fields chunk) = Some r.
Proof.
  intros Hno Hlen Hco Hshape. unfold equivalent_input.
  assert (Hsp : exists q0 q1 q2 q3 q4 q5 q6 rest,
             split (lit ",") chunk
             = q0 :: q1 :: q2 :: q3 :: q4 :: q5 :: q6 :: rest).
  { destruct (split (lit ",") chunk)
      as [|q0 [|q1 [|q2 [|q3 [|q4 [|q5 [|q6 rest]]]]]]];
      simpl in Hlen; try lia. eauto 10. }
  destruct Hsp as (q0 & q1 & q2 & q3 & q4 & q5 & q6 & rest & Hsp).
  set (f2 := remove_blanks (strip q2)) in *.
  set (f3 := remove_blanks (strip q3)) in *.
  set (f4 := remove_blanks (strip q4)) in *.
  set (f5 := remove_blanks (strip q5)) in *.
  set (f6 := remove_blanks (strip q6)) in *.
  assert (Hf : chunk_fields chunk = [strip q0; strip q1; f2; f3; f4; f5; f6])
    by (unfold chunk_fields; rewrite Hsp; reflexivity).
  rewrite Hf in Hco, Hshape |- *.
  cbn [pattern_shaped] in Hshape.
  apply andb_true_iff in Hshape as [Hshape S6].
  apply andb_true_iff in Hshape as [Hshape S5].
  apply andb_true_iff in Hshape as [Hshape S4].
  apply andb_true_iff in Hshape as [Hshape S3].
  apply andb_true_iff in Hshape as [Hshape S2].
  apply andb_true_iff in Hshape as [S0 S1].
  apply is_digits_spec in S0, S3, S5. apply is_name_spec in S1.
  apply is_decimal_spec in S2, S4, S6.
  destruct Hco as (C2 & C3 & C4 & C5 & C6). cbn [nth] in C2, C3, C4, C5, C6.
  apply not_none_some in C2 as [x2 E2]. apply not_none_some in C3 as [c3 E3].
  apply not_none_some in C4 as [x4 E4]. apply not_none_some in C5 as [c5 E5].
  apply not_none_some in C6 as [x6 E6].
  assert (Hfix : fix_numeric_parts (map strip (split (lit ",") chunk))
                 = strip q0 :: strip q1 :: f2 :: f3 :: f4 :: f5 :: f6
                   :: map strip rest).
  { rewrite Hsp. cbn [map].
    transitivity (strip q0 :: strip q1
                  :: replace (lit " ") [] (strip q2)
                  :: replace (lit " ") [] (strip q3)
                  :: replace (lit " ") [] (strip q4)
                  :: replace (lit " ") [] (strip q5)
                  :: replace (lit " ") [] (strip q6) :: map strip rest);
      [reflexivity|].
    now rewrite !replace_blank_filter. }
  set (e := [strip q0; strip q1; float_str x2; int_str c3; float_str x4;
             int_str c5; float_str x6]).
  assert (Hval : validate_parts
                   (fix_numeric_parts (map strip (split (lit ",") chunk)))
                 = Some e).
  { rewrite Hfix. unfold validate_parts. cbn [nth_error bind].
    rewrite E2, E3, E4, E5, E6. reflexivity. }
  assert (Hscan : scan_chunk chunk
                  = ([e], [TryingAlternative chunk; ManualParsed])).
  { unfold scan_chunk. rewrite Hno. unfold manual_parse.
    rewrite length_map. apply Nat.leb_le in Hlen. now rewrite Hlen, Hval. }
  set (r := MkCandidate (strip (strip q0)) (strip (strip q1))
                        x2 c3 x4 c5 x6).
  assert (Hce : coerce e = Some r).
  { unfold coerce, e. cbn [nth_error option_map bind].
    rewrite (py_float_reads_back S2 E2), (py_int_int_str S3 E3),
      (py_float_reads_back S4 E4), (py_int_int_str S5 E5),
      (py_float_reads_back S6 E6).
    reflexivity. }
  assert (Hcf : coerce [strip q0; strip q1; f2; f3; f4; f5; f6] = Some r).
  { unfold coerce. cbn [nth_error option_map bind].
    rewrite E2, E3, E4, E5, E6. reflexivity. }
  pose proof (@pattern_on_joined_fields (strip q0) (strip q1) f2 f3 f4 f5 f6
                S0 S1 (strip_head q1) S2 S3 S4 S5 S6) as Hs.
  cbv zeta in Hs.
  exists r. split; [now rewrite Hscan|].
  split; [unfold chunk_candidates; rewrite Hscan; cbn [fst process_entries];
          now rewrite Hce|].
  split; [exact Hs|]. split; [|exact Hcf].
  unfold chunk_candidates, scan_chunk. rewrite Hs.
  cbn [m_groups fst process_entries]. now rewrite Hcf.
Qed.

End Fallback.

(** * Part III: the scenarios *)

(** ** The exact decimals *)

Lemma take_digits_app (d rest : str) :
  forallb is_digit d = true ->
  match rest with [] => true | c :: _ => negb (is_digit c) end = true ->
  take_digits (d ++ rest) = (d, rest).
Proof.
  intros Hd Hr. induction d as [|c d IH]; simpl.
  - destruct rest as [|c rest]; [reflexivity|].
    apply negb_true_iff in Hr. simpl. now rewrite Hr.
  - simpl in Hd. apply andb_true_iff in Hd as [Hc Hd].
    now rewrite Hc, (IH Hd).
Qed.

Lemma q_float_decimal (d1 d2 : str) :
  d1 <> [] -> forallb is_digit d1 = true ->
  d2 <> [] -> forallb is_digit d2 = true ->
  exists x : Q, q_float (d1 ++ "."%char :: d2) = Some x /\ false = false.
Proof.
  intros N1 H1 N2 H2. unfold q_float.
  rewrite strip_number_digits by assumption.
  destruct d1 as [|c d1]; [contradiction|].
  pose proof H1 as H1'. simpl in H1'. apply andb_true_iff in H1' as [Hc _].
  destruct (digit_not_sign c Hc) as [E1 E2].
  change ((c :: d1) ++ "."%char :: d2) with (c :: d1 ++ "."%char :: d2).
  cbv beta iota. rewrite E1, E2. unfold q_unsigned.
  change (c :: d1 ++ "."%char :: d2) with ((c :: d1) ++ "."%char :: d2).
  rewrite (take_digits_app (c :: d1) ("."%char :: d2) H1 eq_refl).
  pose proof (take_digits_app d2 [] H2 eq_refl) as T.
  rewrite app_nil_r in T.
  cbv beta iota. rewrite Ascii.eqb_refl, T. cbn [is_nil andb negb].
  eexists; split; reflexivity.
Qed.

Lemma q_lt_iff (x y : Q) : q_lt x y = true <-> (x < y)%Q.
Proof.
  unfold q_lt. rewrite negb_true_iff, <- not_true_iff_false, Qle_bool_iff.
  split; [apply Qnot_le_lt | apply Qlt_not_le].
Qed.

Lemma q_lt_irrefl (x : Q) : false = false -> q_lt x x = false.
Proof.
  intros _. apply not_true_iff_false. rewrite q_lt_iff. apply Qlt_irrefl.
Qed.

Lemma q_lt_trans (x y z : Q) :
  false = false -> false = false -> false = false ->
  q_lt x y = true -> q_lt y z = true -> q_lt x z = true.
Proof.
  intros _ _ _. rewrite !q_lt_iff. apply Qlt_trans.
Qed.

Lemma q_lt_cotrans (x y z : Q) :
  false = false -> false = false -> false = false ->
  q_lt x z = true -> q_lt x y = true \/ q_lt y z = true.
Proof.
  intros _ _ _. rewrite !q_lt_iff. intros H.
  destruct (Qlt_le_dec x y) as [L|L]; [now left|right].
  eapply Qle_lt_trans; eassumption.
Qed.

Lemma q_eq_spec (x y : Q) :
  false = false -> false = false ->
  Qeq_bool x y = negb (q_lt x y) && negb (q_lt y x).
Proof.
  intros _ _. unfold q_lt. rewrite !negb_involutive.
  apply eq_true_iff_eq.
  rewrite andb_true_iff, Qeq_bool_iff, !Qle_bool_iff. split.
  - intros E. split; rewrite E; apply Qle_refl.
  - intros [A B]. now apply Qle_antisym.
Qed.

(** The exact decimals have the properties asked of [float]. *)
#[export] Instance ExactDecimal_laws : PyFloatLaws ExactDecimal.
Proof.
  constructor.
  - exact q_float_decimal.
  - exact q_lt_irrefl.
  - exact q_lt_trans.
  - exact q_lt_cotrans.
  - exact q_eq_spec.
Qed.

(** *** [str] of an exact decimal, read back *)

Lemma fold_digit_step (s : str) :
  forall acc,
    fold_left digit_step s acc
    = (acc * 10 ^ Z.of_nat (length s) + fold_left digit_step s 0)%Z.
Proof.
  induction s as [|c s IH]; intros acc; cbn [fold_left length].
  - cbn. lia.
  - rewrite (IH (digit_step acc c)), (IH (digit_step 0 c)).
    rewrite Nat2Z.inj_succ, Z.pow_succ_r by lia.
    unfold digit_step. ring.
Qed.

Lemma digits_value_app (a b : str) :
  digits_value (a ++ b)
  = (digits_value a * 10 ^ Z.of_nat (length b) + digits_value b)%Z.
Proof.
  rewrite !digits_value_fold, fold_left_app. apply fold_digit_step.
Qed.

Lemma digit_of_quotient (q : Z) :
  (0 <= q <= 9)%Z ->
  is_digit (chr (48 + Z.to_nat q)) = true
  /\ digit_val (chr (48 + Z.to_nat q)) = q.
Proof.
  intros H.
  assert (E : (q = 0 \/ q = 1 \/ q = 2 \/ q = 3 \/ q = 4 \/ q = 5 \/ q = 6
               \/ q = 7 \/ q = 8 \/ q = 9)%Z) by lia.
  repeat (destruct E as [E | E]; [subst q; split; reflexivity|]).
  subst q; split; reflexivity.
Qed.

(** The long division stops with the fraction spelled out when the
    divisor divides a power of ten within the steps allowed. *)
Lemma frac_digits_exact (fuel : nat) :
  forall r d : Z,
    (0 <= r < d)%Z -> (d | r * 10 ^ Z.of_nat fuel)%Z ->
    forallb is_digit (frac_digits fuel r d) = true
    /\ (digits_value (frac_digits fuel r d) * d
        = r * 10 ^ Z.of_nat (length (frac_digits fuel r d)))%Z.
Proof.
  induction fuel as [|fuel IH]; intros r d Hr Hd; cbn [frac_digits].
  - split; [reflexivity|]. cbn. rewrite Z.mul_1_r in *.
    destruct Hd as [q Hq].
    assert (q = 0)%Z by nia. subst q. lia.
  - destruct (Z.eqb_spec r 0) as [-> | Hn].
    + split; [reflexivity|]. cbn. lia.
    + assert (Hq : (0 <= 10 * r / d <= 9)%Z).
      { split; [apply Z.div_pos; lia|].
        apply Z.lt_succ_r. apply Z.div_lt_upper_bound; lia. }
      destruct (digit_of_quotient Hq) as [Dg Dv].
      assert (Hm : (0 <= (10 * r) mod d < d)%Z) by (apply Z.mod_pos_bound; lia).
      assert (Hd' : (d | (10 * r) mod d * 10 ^ Z.of_nat fuel)%Z).
      { rewrite Nat2Z.inj_succ, Z.pow_succ_r in Hd by lia.
        destruct Hd as [k Hk].
        exists (k - 10 * r / d * 10 ^ Z.of_nat fuel)%Z.
        pose proof (Z.div_mod (10 * r) d ltac:(lia)) as E.
        nia. }
      destruct (IH _ _ Hm Hd') as [A B].
      split; [cbn [forallb]; now rewrite Dg, A|].
      change (chr (48 + Z.to_nat (10 * r / d))
              :: frac_digits fuel ((10 * r) mod d) d)
        with ([chr (48 + Z.to_nat (10 * r / d))]
              ++ frac_digits fuel ((10 * r) mod d) d).
      rewrite digits_value_app, length_app. cbn [length].
      change (digits_value [chr (48 + Z.to_nat (10 * r / d))])
        with (10 * 0 + digit_val (chr (48 + Z.to_nat (10 * r / d))))%Z.
      rewrite Dv.
      rewrite Nat2Z.inj_add, Z.pow_add_r by lia.
      change (10 ^ Z.of_nat 1)%Z with 10%Z.
      pose proof (Z.div_mod (10 * r) d ltac:(lia)) as E.
      set (L := (10 ^ Z.of_nat (length (frac_digits fuel ((10 * r) mod d) d)))%Z)
        in *.
      set (q := (10 * r / d)%Z) in *. set (m := ((10 * r) mod d)%Z) in *.
      set (v := digits_value (frac_digits fuel m d)) in *.
      nia.
Qed.

Lemma gcd_10 (d : Z) :
  ~ (2 | d)%Z -> ~ (5 | d)%Z -> Z.gcd d 10 = 1%Z.
Proof.
  intros H2 H5.
  destruct (Z.gcd_divide_r d 10) as [q Hq].
  destruct (Z.gcd_divide_l d 10) as [q' Hq'].
  pose proof (Z.gcd_nonneg d 10) as P.
  pose proof (Z.divide_pos_le (Z.gcd d 10) 10 eq_refl (Z.gcd_divide_r d 10))
    as U.
  set (g := Z.gcd d 10) in *.
  assert (B : (0 < g <= 10)%Z).
  { split; [|exact U]. destruct (Z.eq_dec g 0) as [E|E]; [|lia].
    rewrite E in Hq. lia. }
  assert (E : (g = 1 \/ g = 2 \/ g = 3 \/ g = 4 \/ g = 5 \/ g = 6
               \/ g = 7 \/ g = 8 \/ g = 9 \/ g = 10)%Z) by lia.
  clearbody g.
  destruct E as [E|[E|[E|[E|[E|[E|[E|[E|[E|E]]]]]]]]]; subst g;
    try reflexivity; try lia.
  - elim H2. now exists q'.
  - elim H5. now exists q'.
  - elim H2. exists (q' * 5)%Z. lia.
Qed.

Lemma coprime_divides_pow10 (k : nat) (d : Z) :
  (0 < d)%Z -> ~ (2 | d)%Z -> ~ (5 | d)%Z ->
  (d | 10 ^ Z.of_nat k)%Z -> d = 1%Z.
Proof.
  intros Hd H2 H5.
  pose proof (gcd_10 H2 H5) as G.
  induction k as [|k IH]; intros H.
  - cbn in H. apply Z.divide_1_r_nonneg in H; lia.
  - apply IH. rewrite Nat2Z.inj_succ, Z.pow_succ_r in H by lia.
    now apply Z.gauss in H.
Qed.

Lemma divides_pow10_bound (m : nat) :
  forall d : Z,
    (0 < d < 2 ^ Z.of_nat m)%Z ->
    (exists k : nat, (d | 10 ^ Z.of_nat k)%Z) ->
    (d | 10 ^ Z.of_nat m)%Z.
Proof.
  induction m as [|m IH]; intros d Hd [k Hk].
  - cbn in Hd. lia.
  - assert (S : forall p, (p = 2 \/ p = 5)%Z -> (p | d)%Z ->
                     (d | 10 ^ Z.of_nat (S m))%Z).
    { intros p Hp [q Hq].
      rewrite Nat2Z.inj_succ, Z.pow_succ_r in * by lia.
      assert (Hq' : (0 < q < 2 ^ Z.of_nat m)%Z) by (destruct Hp; subst p; nia).
      assert (Dq : (q | 10 ^ Z.of_nat m)%Z).
      { apply IH; [exact Hq'|]. exists k.
        apply Z.divide_trans with d; [|exact Hk].
        exists p. lia. }
      destruct Dq as [t Ht]. rewrite Ht, Hq.
      destruct Hp; subst p; [exists (5 * t)%Z | exists (2 * t)%Z]; ring. }
    destruct (Z.eq_dec (d mod 2) 0) as [D2|N2];
      [apply (S 2%Z); [auto | apply Z.mod_divide; [lia | exact D2]]|].
    destruct (Z.eq_dec (d mod 5) 0) as [D5|N5];
      [apply (S 5%Z); [auto | apply Z.mod_divide; [lia | exact D5]]|].
    rewrite (@coprime_divides_pow10 k d);
      [apply Z.divide_1_l | lia | | | exact Hk].
    + intros D. apply N2. apply Z.mod_divide; [lia | exact D].
    + intros D. apply N5. apply Z.mod_divide; [lia | exact D].
Qed.

Lemma size_nat_bound (p : positive) :
  (Z.pos p < 2 ^ Z.of_nat (Pos.size_nat p))%Z.
Proof.
  induction p as [p IH|p IH|]; cbn [Pos.size_nat];
    rewrite ?Nat2Z.inj_succ, ?Z.pow_succ_r by lia; [lia | lia | cbn; lia].
Qed.

Lemma q_float_decimal_value (d1 d2 : str) :
  digits d1 -> digits d2 ->
  q_float (d1 ++ "."%char :: d2)
  = Some (Qred (digits_value (d1 ++ d2)
                # Z.to_pos (10 ^ Z.of_nat (length d2)))).
Proof.
  intros [N1 H1] [N2 H2]. unfold q_float.
  rewrite strip_number_digits by assumption.
  destruct d1 as [|c d1]; [contradiction|].
  pose proof H1 as H1'. simpl in H1'. apply andb_true_iff in H1' as [Hc _].
  destruct (digit_not_sign c Hc) as [E1 E2].
  change ((c :: d1) ++ "."%char :: d2) with (c :: d1 ++ "."%char :: d2).
  cbv beta iota. rewrite E1, E2. unfold q_unsigned.
  change (c :: d1 ++ "."%char :: d2) with ((c :: d1) ++ "."%char :: d2).
  rewrite (take_digits_app (c :: d1) ("."%char :: d2) H1 eq_refl).
  pose proof (take_digits_app d2 [] H2 eq_refl) as T.
  rewrite app_nil_r in T.
  cbv beta iota. rewrite Ascii.eqb_refl, T. cbn [is_nil andb negb].
  reflexivity.
Qed.

Lemma Qred_parts (n : Z) (p : positive) :
  (0 <= n)%Z ->
  (0 <= Qnum (Qred (n # p)))%Z
  /\ (Z.pos (Qden (Qred (n # p))) | Z.pos p)%Z.
Proof.
  intros Hn. unfold Qred.
  pose proof (Z.ggcd_correct_divisors n (Z.pos p)) as C.
  pose proof (Z.ggcd_gcd n (Z.pos p)) as G.
  pose proof (Z.gcd_nonneg n (Z.pos p)) as P.
  destruct (Z.ggcd n (Z.pos p)) as [g [a b]]. cbn [fst snd] in *.
  destruct C as [Ca Cb]. cbn [Qnum Qden].
  assert (g <> 0%Z) by (intros E0; rewrite E0 in Cb; lia).
  assert (0 < g)%Z by lia. assert (0 < b)%Z by nia.
  split; [nia|]. rewrite Z2Pos.id by assumption.
  exists g. lia.
Qed.

(** [str] of the value of a decimal, read back, is this value. *)
Lemma q_str_reads_back (d1 d2 : str) (x : Q) :
  digits d1 -> digits d2 ->
  q_float (d1 ++ "."%char :: d2) = Some x ->
  q_float (q_str x) = Some x.
Proof.
  intros D1 D2 H0. rewrite (q_float_decimal_value D1 D2) in H0.
  set (N := digits_value (d1 ++ d2)) in *.
  set (P := Z.to_pos (10 ^ Z.of_nat (length d2))) in *.
  assert (H : Qred (N # P) = x).
  { pose proof (f_equal (fun o : option Q =>
                           match o with Some y => y | None => x end) H0) as E.
    exact E. }
  clear H0.
  destruct (@Qred_parts N P (digits_value_nonneg _)) as [Hn Hd].
  assert (Hx : Qred x = x)
    by (rewrite <- H; apply Qred_complete, Qred_correct).
  rewrite H in Hn, Hd. clear H.
  destruct x as [n d]. cbn [Qnum Qden] in *.
  assert (Dd : (Z.pos d | 10 ^ Z.of_nat (Pos.size_nat d))%Z).
  { apply divides_pow10_bound.
    - split; [lia | apply size_nat_bound].
    - exists (length d2). unfold P in Hd.
      rewrite Z2Pos.id in Hd; [exact Hd|]. apply Z.pow_pos_nonneg; lia. }
  unfold q_str. cbn [Qnum Qden].
  replace (n <? 0)%Z with false by (symmetry; apply Z.ltb_ge; exact Hn).
  rewrite Z.abs_eq by exact Hn. cbn [app].
  assert (Hm : (0 <= n mod Z.pos d < Z.pos d)%Z)
    by (apply Z.mod_pos_bound; lia).
  destruct (@frac_digits_exact (Pos.size_nat d) (n mod Z.pos d) (Z.pos d) Hm)
    as [Fd Fv].
  { destruct Dd as [t Ht]. rewrite Ht.
    exists (n mod Z.pos d * t)%Z. ring. }
  assert (Hq : (0 <= n / Z.pos d)%Z) by (apply Z.div_pos; lia).
  destruct (int_str_spec Hq) as (Di & Vi & _).
  set (fd := frac_digits (Pos.size_nat d) (n mod Z.pos d) (Z.pos d)) in *.
  match goal with
  | |- context [q_float (_ ++ _ :: ?t)] => set (fd' := t)
  end.
  assert (F' : digits fd'
               /\ (digits_value fd' * Z.pos d
                   = n mod Z.pos d * 10 ^ Z.of_nat (length fd'))%Z).
  { unfold fd'. destruct fd as [|c fd0] eqn:E.
    - split; [split; [discriminate | reflexivity]|].
      cbn in Fv.
      change (digits_value (lit "0")) with 0%Z.
      assert (Z0 : (n mod Z.pos d = 0)%Z) by lia.
      rewrite Z0. reflexivity.
    - split; [split; [discriminate | exact Fd] | exact Fv]. }
  destruct F' as [Df Vf].
  rewrite (q_float_decimal_value Di Df). f_equal.
  rewrite <- Hx. apply Qred_complete.
  unfold Qeq. cbn [Qnum Qden].
  rewrite Z2Pos.id by (apply Z.pow_pos_nonneg; lia).
  rewrite digits_value_app, Vi.
  pose proof (Z.div_mod n (Z.pos d) ltac:(lia)) as E.
  set (L := (10 ^ Z.of_nat (length fd'))%Z) in *.
  set (q := (n / Z.pos d)%Z) in *. set (m := (n mod Z.pos d)%Z) in *.
  set (v := digits_value fd') in *.
  nia.
Qed.

(** The exact decimals are read back from their [str]. *)
#[export] Instance ExactDecimal_repr : PyFloatRepr ExactDecimal.
Proof.
  constructor. intros d1 d2 x N1 H1 N2 H2.
  apply (@q_str_reads_back d1 d2 x); split; assumption.
Qed.

Example q_float_975 : q_float (lit " 9.75 ") = Some (39 # 4).
Proof. vm_compute. reflexivity. Qed.

Example q_str_975 : q_str (39 # 4) = lit "9.75".
Proof. vm_compute. reflexivity. Qed.

Example q_str_10 : q_str (10 # 1) = lit "10.0".
Proof. vm_compute. reflexivity. Qed.

Example q_str_neg : q_str (-(1 # 8)) = lit "-0.125".
Proof. vm_compute. reflexivity. Qed.

Example py_int_underscore : py_int (lit " 1_000 ") = Some 1000%Z.
Proof. vm_compute. reflexivity. Qed.

Example py_int_bad : py_int (lit "1__0") = None.
Proof. vm_compute. reflexivity. Qed.

Example py_int_limit :
  py_int (repeat "1"%char 4300) <> None /\ py_int (repeat "1"%char 4301) = None
  /\ py_int (repeat "0"%char 4301) = None.
Proof. split; [|split]; vm_compute; [discriminate | reflexivity..]. Qed.

Example int_str_neg : int_str (-20) = lit "-20".
Proof. vm_compute. reflexivity. Qed.

(** ** The patterns and the text methods *)

Example pattern_john :
  search pattern (lit "001, John A. Doe, 10.0, 20, 9.5, 19, 9.75")
  = Some (MkMatch 0 (lit "001, John A. Doe, 10.0, 20, 9.5, 19, 9.75")
            [lit "001"; lit "John A. Doe"; lit "10.0"; lit "20"; lit "9.5";
             lit "19"; lit "9.75"]).
Proof. vm_compute. reflexivity. Qed.

Example pattern_inside :
  search pattern (lit "x 7,Ann,1.0,2,3.0,4,5.0 tail")
  = Some (MkMatch 2 (lit "7,Ann,1.0,2,3.0,4,5.0")
            [lit "7"; lit "Ann"; lit "1.0"; lit "2"; lit "3.0";
             lit "4"; lit "5.0"]).
Proof. vm_compute. reflexivity. Qed.

Example pattern_short : search pattern (lit "003, No, Good, Data") = None.
Proof. vm_compute. reflexivity. Qed.

Example split_slash :
  split (lit "/") (lit "a/b//c") = [lit "a"; lit "b"; lit ""; lit "c"].
Proof. vm_compute. reflexivity. Qed.

Example replace_ext :
  replace (lit ".csv") (lit ".xlsx") (lit "r.csv.csvx") = lit "r.xlsx.xlsxx".
Proof. vm_compute. reflexivity. Qed.

Example rejoin_line_break :
  rejoin_decimals (lit "9." ++ chr 10 :: lit "75") = lit "9.75".
Proof. reflexivity. Qed.

Example reconcile_csv : reconcile Xlsx (lit "ranking.csv") = lit "ranking.xlsx".
Proof. reflexivity. Qed.

Example reconcile_none : reconcile Xlsx (lit "ranking") = lit "ranking.xlsx".
Proof. reflexivity. Qed.

Example reconcile_upper : reconcile Xlsx (lit "r.XLSX") = lit "r.XLSX".
Proof. reflexivity. Qed.

Example reconcile_mixed :
  reconcile Xlsx (lit "r.csv.TXT") = lit "r.xlsx.TXT.xlsx".
Proof. reflexivity. Qed.

(** ** The program *)

Example john_record :
  chunk_candidates (F := ExactDecimal) john_chunk
  = [MkCandidate (F := ExactDecimal)
       (lit "001") (lit "John A. Doe") (10 # 1) 20 (19 # 2) 19 (39 # 4)].
Proof. reflexivity. Qed.

Example ranking_scenario :
  ranked_candidates [mary; john; anne] = [john; mary; anne].
Proof. reflexivity. Qed.

Example scenario_of_the_specification :
  parse_candidates_data (F := ExactDecimal)
    (Some (OPCAO ++ lit " 7: Analyst" ++ chr 10 :: SUBAREA
           ++ lit " 001, John A. Doe, 10.0, 20, 9.5, 19, 9.75 /"
           ++ lit " 002, Mary Lee, 8.0, 16, 8.5, 17, 8.25 /"
           ++ lit " 003, No, Good, Data"))
  = (lit "7", lit "Analyst", [john; mary]).
Proof. reflexivity. Qed.

(** ** The theorems at the scenarios, and where the claims fail *)

(** C1 at the first chunk of the scenario of the specification. *)
Lemma primary_match_yields_record_witness :
  exists g1 g2 g3 g4 g5 g6 g7 r,
    john_groups = [g1; g2; g3; g4; g5; g6; g7]
    /\ scan_chunk (F := ExactDecimal) john_chunk = ([john_groups], [])
    /\ chunk_candidates john_chunk = [r]
    /\ registration r = strip g1 /\ name r = strip g2
    /\ py_float g3 = Some (p1_score r)
    /\ py_int g4 = Some (p1_correct r)
    /\ py_float g5 = Some (p2_score r)
    /\ py_int g6 = Some (p2_correct r)
    /\ py_float g7 = Some (final_score r).
Proof.
  apply (@primary_match_yields_record ExactDecimal ExactDecimal_laws
           john_chunk
           (MkMatch 0 john_chunk john_groups)).
  - vm_compute. reflexivity.
  - apply Nat.leb_le. reflexivity.
  - apply Nat.leb_le. reflexivity.
Defined.

(** C1, as stated, fails: the pattern matches the chunk below, whose
    first count has 4301 digits; [int] raises on this group, so that the
    chunk gives no record, and the failure is reported with the groups. *)
Lemma primary_match_without_record :
  search pattern long_count_chunk
  = Some (MkMatch 0 long_count_chunk long_count_groups)
  /\ length (nth 3 long_count_groups []) = S int_max_str_digits
  /\ py_int (nth 3 long_count_groups []) = None
  /\ scan_chunk (F := ExactDecimal) long_count_chunk
     = ([long_count_groups], [])
  /\ process_entries (F := ExactDecimal) [long_count_groups]
     = ([], [CoercionFailed long_count_groups])
  /\ chunk_candidates (F := ExactDecimal) long_count_chunk = [].
Proof.
  assert (H : search pattern long_count_chunk
              = Some (MkMatch 0 long_count_chunk long_count_groups))
    by (vm_compute; reflexivity).
  assert (I : py_int (nth 3 long_count_groups []) = None)
    by (vm_compute; reflexivity).
  assert (P : process_entries (F := ExactDecimal) [long_count_groups]
              = ([], [CoercionFailed long_count_groups])).
  { unfold long_count_groups. cbn [process_entries].
    now rewrite (@coerce_count_unread ExactDecimal _ _ _ _ _ _ _ I). }
  split; [exact H|]. split; [vm_compute; reflexivity|].
  split; [exact I|].
  assert (S : scan_chunk (F := ExactDecimal) long_count_chunk
              = ([long_count_groups], []))
    by (unfold scan_chunk; now rewrite H).
  split; [exact S|]. split; [exact P|].
  unfold chunk_candidates. rewrite S. cbn [fst]. now rewrite P.
Qed.

(** C2 at three records, two of which have the same final score. *)
Lemma build_ranking_sorted_stable_witness :
  exists a' h' out,
    build_ranking [[mary; john; anne]] 0 = Some (a', h')
    /\ nth_error h' a' = Some out
    /\ Permutation [mary; john; anne] out
    /\ StronglySorted score_ge out
    /\ forall v, float_is_nan v = false ->
         filter (score_is v) out = filter (score_is v) [mary; john; anne].
Proof.
  apply (@build_ranking_sorted_stable ExactDecimal ExactDecimal_laws
           [[mary; john; anne]] 0 [mary; john; anne]).
  - reflexivity.
  - repeat constructor.
Defined.

(** The fields of the chunk of the scenario of C3. *)
Example spaced_chunk_fields : chunk_fields spaced_chunk = spaced_entry.
Proof. reflexivity. Qed.

(** C3, amended, at a chunk that the pattern rejects for the blanks inside
    and behind its first score. *)
Lemma manual_entry_matches_pattern_witness :
  exists r,
    snd (scan_chunk (F := ExactDecimal) spaced_chunk)
    = [TryingAlternative spaced_chunk; ManualParsed]
    /\ chunk_candidates spaced_chunk = [r]
    /\ search pattern (equivalent_input spaced_chunk)
       = Some (MkMatch 0 (equivalent_input spaced_chunk)
                 (chunk_fields spaced_chunk))
    /\ chunk_candidates (equivalent_input spaced_chunk) = [r]
    /\ coerce (chunk_fields spaced_chunk) = Some r.
Proof.
  apply (@manual_entry_matches_pattern ExactDecimal ExactDecimal_repr
           spaced_chunk).
  - reflexivity.
  - vm_compute. lia.
  - repeat split; discriminate.
  - reflexivity.
Defined.

(** C3, as stated, fails: the manual parsing accepts the chunk below,
    which the pattern rejects and whose numeric parts are coercible, and
    builds a record from it; the pattern rejects the equivalent input
    too, and there is no input at all from which the pattern gives this
    record, because a parenthesis is not a character of its name
    group. *)
Lemma manual_record_outside_pattern :
  search pattern junior_chunk = None
  /\ 7 <= length (split (lit ",") junior_chunk)
  /\ coercible (F := ExactDecimal) (chunk_fields junior_chunk)
  /\ validate_parts (F := ExactDecimal)
       (fix_numeric_parts (map strip (split (lit ",") junior_chunk)))
     = Some junior_entry
  /\ chunk_candidates junior_chunk = [junior_record]
  /\ search pattern (equivalent_input junior_chunk) = None
  /\ forall chunk m,
       search pattern chunk = Some m ->
       coerce (m_groups m) <> Some junior_record.
Proof.
  split; [reflexivity|]. split; [vm_compute; lia|].
  split; [repeat split; discriminate|].
  split; [reflexivity|]. split; [reflexivity|]. split; [reflexivity|].
  intros chunk m H C.
  pose proof (pattern_record_name chunk H C) as N.
  discriminate N.
Qed.

(** The shape of the registration matters as well: from the chunk below
    the manual parsing takes the registration [ab1], and on the
    equivalent input the pattern, which matches behind the letters, takes
    the registration [1]. *)
Example registration_outside_pattern :
  search pattern (lit "ab1, John, 1 0.0, 20, 9.5, 19, 9.75") = None
  /\ map registration
       (chunk_candidates (F := ExactDecimal)
          (lit "ab1, John, 1 0.0, 20, 9.5, 19, 9.75"))
     = [lit "ab1"]
  /\ equivalent_input (lit "ab1, John, 1 0.0, 20, 9.5, 19, 9.75")
     = lit "ab1, John, 10.0, 20, 9.5, 19, 9.75"
  /\ map registration
       (chunk_candidates (F := ExactDecimal)
          (lit "ab1, John, 10.0, 20, 9.5, 19, 9.75"))
     = [lit "1"].
Proof. repeat split; reflexivity. Qed.

(** C4.  The claim holds for line feeds but not for blanks: line 89
    replaces pairs of blanks once, from the left, so that a run of three
    blanks leaves two adjacent blanks in the text handed to the split. *)
Theorem cleaned_content_three_blanks :
  cleaned_content (lit "a   b") = lit "a  b"
  /\ contains (lit "  ") (cleaned_content (lit "a   b")) = true
  /\ candidate_chunks (lit "a   b") = [lit "a  b"].
Proof. repeat split; reflexivity. Qed.

(** C5, amended, at a text with a decimal split over a line break; the
    rewriting goes on and rejoins the second split decimal too. *)
Lemma rejoin_decimals_leftmost_witness :
  rejoin_decimals (lit "x 9." ++ chr 10 :: lit "75, 8.  5/")
  = lit "x 9.75, 8.5/"
  /\ candidate_chunks (lit "x 9." ++ chr 10 :: lit "75, 8.  5/")
     = [lit "x 9.75, 8.5"; []].
Proof.
  pose proof (@rejoin_decimals_leftmost
                (lit "x ") (lit "9") [chr 10] (lit "75") (lit ", 8.  5/")) as H.
  destruct H as [H1 H2];
    [split; [discriminate | reflexivity]
    |split; [discriminate | reflexivity]
    |split; [discriminate | reflexivity]
    |reflexivity | reflexivity |].
  split.
  - exact H1.
  - exact H2.
Defined.

(** C5, as stated, fails: after the rewrite of ["1. 2. 3"] the second
    point is still apart from its digits, because its integer digits were
    taken as the fraction of the first number. *)
Lemma rejoin_decimals_overlap :
  rejoin_decimals (lit "1. 2. 3") = lit "1.2. 3"
  /\ cleaned_content (rejoin_decimals (lit "1. 2. 3")) = lit "1.2. 3"
  /\ has_split_decimal (cleaned_content (rejoin_decimals (lit "1. 2. 3"))).
Proof.
  split; [reflexivity|]. split; [reflexivity|].
  exists (lit "1."), "2"%char, (lit " "), "3"%char, [].
  repeat split; discriminate.
Qed.

(** C6 at the third chunk of the scenario of the specification, between
    two good chunks. *)
Lemma short_chunk_dropped_witness :
  chunk_step (F := ExactDecimal) true short_chunk
  = (true, ([], [TryingAlternative short_chunk]))
  /\ chunks_candidates true ([john_chunk] ++ short_chunk :: [john_chunk])
     = chunks_candidates true [john_chunk]
       ++ chunks_candidates true [john_chunk]
  /\ (true = true ->
      chunks_candidates true ([john_chunk] ++ short_chunk :: [john_chunk])
      = chunks_candidates true ([john_chunk] ++ [john_chunk])).
Proof.
  apply (@short_chunk_dropped ExactDecimal true true [john_chunk]
           [john_chunk] short_chunk short_chunk).
  - reflexivity.
  - reflexivity.
  - vm_compute. lia.
Defined.



(** The pattern covers the text of the scenario of C9. *)
Lemma inner_match_derives : derives pattern inner_match inner_groups.
Proof.
  destruct (@match_at_sound pattern inner_match inner_match inner_groups
              eq_refl) as (s' & Hs & D).
  exact D.
Defined.

(** C9 at a chunk with text before and behind the match. *)
Lemma pattern_found_anywhere_witness :
  exists m pre' post',
    search pattern (lit "x " ++ inner_match ++ lit " tail") = Some m
    /\ lit "x " ++ inner_match ++ lit " tail" = pre' ++ m_text m ++ post'
    /\ length pre' = m_start m /\ m_start m <= length (lit "x ")
    /\ derives pattern (m_text m) (m_groups m)
    /\ (forall a b w' g' s,
          pre' = a ++ b -> b <> [] -> derives pattern w' g' ->
          b ++ m_text m ++ post' <> w' ++ s)
    /\ scan_chunk (F := ExactDecimal) (lit "x " ++ inner_match ++ lit " tail")
       = ([m_groups m], [])
    /\ (length (nth 3 (m_groups m) []) <= int_max_str_digits ->
        length (nth 5 (m_groups m) []) <= int_max_str_digits ->
        exists r,
          coerce (m_groups m) = Some r
          /\ chunk_candidates (lit "x " ++ inner_match ++ lit " tail")
             = [r])
    /\ (int_max_str_digits < length (nth 3 (m_groups m) [])
        \/ int_max_str_digits < length (nth 5 (m_groups m) []) ->
        coerce (m_groups m) = None
        /\ chunk_candidates (lit "x " ++ inner_match ++ lit " tail") = []).
Proof.
  exact (@pattern_found_anywhere ExactDecimal ExactDecimal_laws (lit "x ")
           inner_match
           (lit " tail") inner_groups inner_match_derives).
Defined.

(** C9, as stated, fails: in the chunk below the pattern matches behind
    the first two characters, the first count of the match has 4301
    digits, and no record is built from the match: the coercion fails and
    is reported. *)
Lemma pattern_found_without_record :
  search pattern long_count_inside
  = Some (MkMatch 2 long_count_chunk long_count_groups)
  /\ scan_chunk (F := ExactDecimal) long_count_inside
     = ([long_count_groups], [])
  /\ coerce (F := ExactDecimal) long_count_groups = None
  /\ snd (process_entries (F := ExactDecimal)
            (fst (scan_chunk long_count_inside)))
     = [CoercionFailed long_count_groups]
  /\ chunk_candidates (F := ExactDecimal) long_count_inside = [].
Proof.
  assert (H : search pattern long_count_inside
              = Some (MkMatch 2 long_count_chunk long_count_groups))
    by (vm_compute; reflexivity).
  assert (C : coerce (F := ExactDecimal) long_count_groups = None).
  { apply coerce_count_unread. vm_compute. reflexivity. }
  assert (S : scan_chunk (F := ExactDecimal) long_count_inside
              = ([long_count_groups], []))
    by (unfold scan_chunk; now rewrite H).
  split; [exact H|]. split; [exact S|]. split; [exact C|].
  unfold chunk_candidates. rewrite S. cbn [fst process_entries].
  rewrite C. split; reflexivity.
Qed.

(** C10 at a store that holds one list. *)
Lemma build_ranking_fresh_witness :
  exists a' h',
    build_ranking [[mary; john; anne]] 0 = Some (a', h')
    /\ nth_error h' 0 = Some [mary; john; anne]
    /\ (forall b x, nth_error [[mary; john; anne]] b = Some x ->
                    nth_error h' b = Some x)
    /\ nth_error [[mary; john; anne]] a' = None
    /\ a' <> 0
    /\ nth_error h' a' = Some (ranked_candidates [mary; john; anne]).
Proof.
  apply (@build_ranking_fresh ExactDecimal
           [[mary; john; anne]] 0 [mary; john; anne]).
  reflexivity.
Defined.


(** ** The further properties at the scenarios *)

Example scenario_file_records :
  snd (parse_candidates_data (F := ExactDecimal) (Some scenario_file))
  = [john; mary].
Proof. reflexivity. Qed.

(** Line 89 on a text with single blanks. *)
Lemma cleaned_content_clean_witness :
  cleaned_content john_chunk = john_chunk.
Proof.
  apply (@cleaned_content_clean john_chunk); reflexivity.
Defined.

(** Line 86 on two numbers written in one piece. *)
Lemma rejoin_decimals_untouched_witness :
  rejoin_decimals (lit "9.75 / 10.0") = lit "9.75 / 10.0".
Proof.
  apply (@rejoin_decimals_untouched (lit "9.75 / 10.0")). reflexivity.
Defined.

(** A chunk of two blanks before the first chunk of the scenario. *)
Lemma blank_chunk_skipped_witness :
  (forall st, chunk_step (F := ExactDecimal) st (lit "  ") = (st, ([], [])))
  /\ chunks_candidates (F := ExactDecimal) true
       ([] ++ lit "  " :: [john_chunk])
     = chunks_candidates true ([] ++ [john_chunk]).
Proof.
  apply (@blank_chunk_skipped ExactDecimal true [] [john_chunk] (lit "  ")).
  reflexivity.
Defined.

(** The header line alone in its chunk. *)
Lemma header_without_marker_witness :
  chunk_step (F := ExactDecimal) false header_text = (false, ([], [])).
Proof.
  apply (@header_without_marker ExactDecimal header_text); reflexivity.
Defined.

(** The header line, the section marker and the first candidate in one
    chunk. *)
Lemma header_with_marker_witness :
  chunk_step (F := ExactDecimal) false header_chunk
  = (true,
     scan_chunk (strip (hd [] (split SUBAREA (" "%char :: john_chunk))))).
Proof.
  apply (@header_with_marker ExactDecimal header_chunk header_text
           (" "%char :: john_chunk)); reflexivity.
Defined.

(** Two chunks without the word of the header. *)
Lemma header_word_absent_witness :
  chunks_candidates (F := ExactDecimal) false [john_chunk; short_chunk]
  = chunks_candidates true [john_chunk; short_chunk].
Proof.
  apply (@header_word_absent ExactDecimal [john_chunk; short_chunk]).
  repeat constructor.
Defined.

(** A chunk whose first score is a letter, between two chunks. *)
Lemma uncoercible_chunk_dropped_witness :
  chunk_step (F := ExactDecimal) (started_after true [john_chunk])
             garbled_chunk
  = (true,
     ([], [TryingAlternative garbled_chunk;
           ManualFailed
             (fix_numeric_parts
                (map strip (split (lit ",") garbled_chunk)))]))
  /\ chunks_candidates true ([john_chunk] ++ garbled_chunk :: [john_chunk])
     = chunks_candidates true [john_chunk]
       ++ chunks_candidates true [john_chunk].
Proof.
  apply (@uncoercible_chunk_dropped ExactDecimal true true [john_chunk]
           [john_chunk] garbled_chunk garbled_chunk).
  - reflexivity.
  - vm_compute. reflexivity.
  - vm_compute. lia.
  - reflexivity.
Defined.

(** Eight parts, with blanks in the name, in three numeric parts and in
    the eighth. *)
Lemma fix_numeric_parts_spec_witness :
  fix_numeric_parts long_parts
  = firstn 2 long_parts
    ++ map (replace (lit " ") []) (firstn 5 (skipn 2 long_parts))
    ++ skipn 7 long_parts
  /\ Forall (fun p => ~ In " "%char p)
            (firstn 5 (skipn 2 (fix_numeric_parts long_parts))).
Proof.
  apply (@fix_numeric_parts_spec long_parts). vm_compute. lia.
Defined.

(** The same eight parts: the eighth is not read. *)
Lemma validate_first_seven_witness :
  validate_parts (F := ExactDecimal) (fix_numeric_parts long_parts)
  = validate_parts (fix_numeric_parts (firstn 7 long_parts)).
Proof.
  apply (@validate_first_seven ExactDecimal long_parts). vm_compute. lia.
Defined.

(** The record of the first chunk of the scenario. *)
Lemma primary_record_well_formed_witness :
  (length (nth 3 john_groups []) <= int_max_str_digits ->
   length (nth 5 john_groups []) <= int_max_str_digits ->
   exists r, chunk_candidates (F := ExactDecimal) john_chunk = [r])
  /\ forall r,
       In r (chunk_candidates (F := ExactDecimal) john_chunk) ->
       digits (registration r)
       /\ forallb name_char (name r) = true
       /\ (0 <= p1_correct r)%Z /\ (0 <= p2_correct r)%Z
       /\ float_is_nan (p1_score r) = false
       /\ float_is_nan (p2_score r) = false
       /\ numeric r.
Proof.
  apply (@primary_record_well_formed ExactDecimal ExactDecimal_laws
           john_chunk (MkMatch 0 john_chunk john_groups)).
  vm_compute. reflexivity.
Defined.

(** The header of the scenario, behind a line of preamble. *)
Lemma option_info_header_witness :
  option_info
    (lit "Results " ++ OPCAO
     ++ " "%char :: lit "7" ++ ":"%char :: " "%char :: lit "Analyst"
     ++ chr 10 :: SUBAREA)
  = (lit "7", lit "Analyst").
Proof.
  apply (@option_info_header (lit "Results ") (lit "7") (lit "Analyst")
           (chr 10 :: SUBAREA)).
  - split; [discriminate | reflexivity].
  - discriminate.
  - reflexivity.
  - reflexivity.
  - vm_compute. reflexivity.
Defined.

(** The ranking of the three records of the scenario. *)
Lemma ranking_idempotent_witness :
  (StronglySorted score_ge [john; mary; anne] ->
   ranked_candidates [john; mary; anne] = [john; mary; anne])
  /\ ranked_candidates (ranked_candidates [john; mary; anne])
     = ranked_candidates [john; mary; anne].
Proof.
  apply (@ranking_idempotent ExactDecimal ExactDecimal_laws
           [john; mary; anne]).
  repeat constructor.
Defined.

Lemma ranking_top_witness :
  length (ranked_candidates [mary; john; anne]) = length [mary; john; anne]
  /\ forall top rest,
       ranked_candidates [mary; john; anne] = top :: rest ->
       forall c, In c [mary; john; anne] -> score_ge top c.
Proof.
  apply (@ranking_top ExactDecimal ExactDecimal_laws [mary; john; anne]).
  repeat constructor.
Defined.

(** A text file name handed to the writer of the comma-separated file. *)
Lemma reconcile_extension_witness :
  endswith (extension Csv) (reconcile Csv (lit "ranking.txt")) = true.
Proof.
  apply (@reconcile_extension Csv (lit "ranking.txt")). reflexivity.
Defined.

(** The run on the file of the scenario. *)
Lemma main_success_witness :
  exists rows,
    main (F := ExactDecimal) (Some scenario_file)
    = [Shown (ConsoleTable rows (length rows - 20));
       Shown (FileWrite Xlsx (lit "ranking_40000188.xlsx") rows);
       SuccessBanner (lit "ranking_40000188.xlsx")
                     (length (snd (parse_candidates_data
                                     (Some scenario_file))))]
    /\ map fst rows
       = seq 1 (length (snd (parse_candidates_data (Some scenario_file))))
    /\ Permutation (snd (parse_candidates_data (Some scenario_file)))
                   (map snd rows)
    /\ (Forall numeric (snd (parse_candidates_data (Some scenario_file))) ->
        StronglySorted score_ge (map snd rows)).
Proof.
  apply (@main_success ExactDecimal ExactDecimal_laws (Some scenario_file)).
  rewrite scenario_file_records. discriminate.
Defined.


